(** * PDF-Master: page reordering, move history and split-range parsing

    A shallow embedding of the parts of [project.py] that carry logic:
    the page-reordering loops of [ThumbnailWidget.move_page] and
    [PDFApp._move_page], the undo/redo history of [PDFApp], the
    document lifecycle ([_init_state], [open_pdf], [close_pdf],
    [_load_and_display_pdf]), page navigation, the range parser and
    writer of [PDFApp.split_pdf], and the merge list with
    [merge_pdfs].  Zoom is floating-point and rendering belongs to the
    library; neither is modelled.

    Python integers are [Z]; Python strings are [string], whose
    characters stand for the code points below 256, so every statement
    about the text of an input field is about texts of such code
    points; a PDF document is the list of its pages.  Widgets and zoom
    do not influence any of the modelled operations and are left out.

    The file system and the PDF library can fail at any call; a
    handler therefore takes, besides the session, a description of
    what the environment does ([fault], [load_result], [split_env]).
    Exceptions are values: [None] for a [ValueError] or [IndexError]
    of a built-in, [Raised] for a helper that raises, [Uncaught] for a
    handler that lets an exception escape.  Running out of memory is
    not modelled. *)

From Stdlib Require Import ZArith Ascii String DecimalString.
From stdpp Require Import base list gmap sorting.

Local Open Scope Z_scope.

(** ** Python built-ins used by the program *)

(** [range(a, b)]: the integers [a], [a+1], ..., [b-1]; empty when [b <= a]. *)
Definition py_range (a b : Z) : list Z := seqZ a (b - a).

(** [l[i]]: negative indices count from the end; [None] is [IndexError]. *)
Definition py_index {A} (l : list A) (i : Z) : option A :=
  let n := Z.of_nat (length l) in
  if (0 <=? i) && (i <? n) then l !! Z.to_nat i
  else if (- n <=? i) && (i <? 0) then l !! Z.to_nat (n + i)
  else None.

(** [l[:k]]: a negative bound counts from the end and is clipped at 0. *)
Definition py_slice_to {A} (l : list A) (k : Z) : list A :=
  let n := Z.of_nat (length l) in
  if 0 <=? k then take (Z.to_nat k) l else take (Z.to_nat (n + k)) l.

(** [s.split(sep)] for a one-character separator: every occurrence
    cuts, so the result is never empty and may hold empty pieces. *)
Fixpoint split_on (sep : ascii) (s : string) : list string :=
  match s with
  | EmptyString => [EmptyString]
  | String c s' =>
      if Ascii.eqb c sep then EmptyString :: split_on sep s'
      else match split_on sep s' with
           | [] => [String c EmptyString]
           | w :: ws => String c w :: ws
           end
  end.

(** [sep in s] for a one-character [sep]. *)
Fixpoint contains (sep : ascii) (s : string) : bool :=
  match s with
  | EmptyString => false
  | String c s' => Ascii.eqb c sep || contains sep s'
  end.

(** The characters [str.strip()] treats as white space, among the code
    points below 256. *)
Definition is_space (c : ascii) : bool :=
  let n := N.to_nat (N_of_ascii c) in
  ((9 <=? n) && (n <=? 13) || (28 <=? n) && (n <=? 32)
   || (n =? 133) || (n =? 160))%nat.

Fixpoint lstrip (s : string) : string :=
  match s with
  | String c s' => if is_space c then lstrip s' else s
  | EmptyString => EmptyString
  end.

Fixpoint rstrip (s : string) : string :=
  match s with
  | EmptyString => EmptyString
  | String c s' =>
      match rstrip s' with
      | EmptyString => if is_space c then EmptyString else String c EmptyString
      | r => String c r
      end
  end.

(** [s.strip()] *)
Definition strip (s : string) : string := rstrip (lstrip s).

Definition digit_value (c : ascii) : option Z :=
  let n := Z.of_N (N_of_ascii c) in
  if (48 <=? n) && (n <=? 57) then Some (n - 48) else None.

(** The digits of a decimal literal: a digit, then digits each
    optionally preceded by one underscore.  [prev] tells whether the
    previous character was a digit. *)
Fixpoint int_digits (acc : Z) (prev : bool) (s : string) : option Z :=
  match s with
  | EmptyString => if prev then Some acc else None
  | String c s' =>
      match digit_value c with
      | Some d => int_digits (10 * acc + d) true s'
      | None =>
          if Ascii.eqb c "_"%char && prev then
            match s' with
            | EmptyString => None
            | String c' _ =>
                match digit_value c' with
                | Some _ => int_digits acc false s'
                | None => None
                end
            end
          else None
      end
  end.

Fixpoint count_digits (s : string) : nat :=
  match s with
  | EmptyString => O
  | String c s' =>
      (match digit_value c with Some _ => 1 | None => 0 end + count_digits s')%nat
  end.

(** CPython's default bound on the digits of a decimal literal given
    to [int()] ([sys.int_info.default_max_str_digits]). *)
Definition int_max_str_digits : nat := 4300.

Definition int_literal (s : string) : option Z :=
  if (count_digits s <=? int_max_str_digits)%nat then int_digits 0 false s
  else None.

(** The characters [int()] skips around a number, among the code
    points below 256: those of C's [isspace], and U+0085 and U+00A0,
    which it first turns into blanks.  The separators U+001C to U+001F
    are white space for [str.strip()] but not for [int()]. *)
Definition is_int_space (c : ascii) : bool :=
  let n := N.to_nat (N_of_ascii c) in
  ((9 <=? n) && (n <=? 13) || (n =? 32) || (n =? 133) || (n =? 160))%nat.

(** Dropping the leading, respectively the trailing, characters that
    satisfy [sp]. *)
Fixpoint drop_leading (sp : ascii -> bool) (s : string) : string :=
  match s with
  | String c s' => if sp c then drop_leading sp s' else s
  | EmptyString => EmptyString
  end.

Fixpoint drop_trailing (sp : ascii -> bool) (s : string) : string :=
  match s with
  | EmptyString => EmptyString
  | String c s' =>
      match drop_trailing sp s' with
      | EmptyString => if sp c then EmptyString else String c EmptyString
      | r => String c r
      end
  end.

(** [int(s)] on a string: the white space around the number is
    skipped, a sign may precede the digits; [None] is [ValueError]. *)
Definition py_int (s : string) : option Z :=
  match drop_trailing is_int_space (drop_leading is_int_space s) with
  | String "-" s' => Z.opp <$> int_literal s'
  | String "+" s' => int_literal s'
  | s' => int_literal s'
  end.

(** [str(n)] of an integer: its decimal digits, after a minus sign
    when it is negative. *)
Definition py_str (n : Z) : string := NilZero.string_of_int (Z.to_int n).

(** ** The PDF library (PyMuPDF), as far as the program uses it *)

Section Session.

Context {Page : Type}.

(** A document handle: the path it was opened from, its pages, and
    whether [close()] has been called on it. *)
Record Document := {
  name : string;
  pages : list Page;
  is_closed : bool
}.

(** [len(doc)]; a closed handle raises [ValueError] ([None]). *)
Definition doc_len (d : Document) : option Z :=
  if is_closed d then None else Some (Z.of_nat (length (pages d))).

(** The pages [fp], ..., [tp] of [src], descending when [tp < fp]. *)
Definition page_range (src : list Page) (fp tp : Z) : list Page :=
  omap (fun i => src !! Z.to_nat i)
       (if fp <=? tp then seqZ fp (tp - fp + 1)
        else reverse (seqZ tp (fp - tp + 1))).

(** [new_pdf.insert_pdf(src, from_page=.., to_page=..)]: appends the
    pages of the range to [new_pdf].  The library first normalises the
    range into the source: [from_page] is clipped to [0 .. count-1],
    a negative [to_page] means the last page and a large one is
    clipped to it. *)
Definition insert_pdf (new_pdf src : list Page) (from_page to_page : Z)
  : list Page :=
  let srcCount := Z.of_nat (length src) in
  let fp := Z.min (Z.max from_page 0) (srcCount - 1) in
  let tp := Z.min (if to_page <? 0 then srcCount - 1 else to_page)
                  (srcCount - 1) in
  new_pdf ++ page_range src fp tp.

(** [doc.save(path)] refuses a document without pages. *)
Definition can_save (doc : list Page) : bool :=
  match doc with [] => false | _ => true end.

(** Truth value of [self.current_pdf]: [None] is false, a document is
    true when [len] is non-zero, and [len] of a closed handle raises
    (the outer [None]). *)
Definition truthy (pdf : option Document) : option bool :=
  match pdf with
  | None => Some false
  | Some d => (fun n => negb (n =? 0)) <$> doc_len d
  end.

(** ** Session state *)

Record PDFApp := {
  current_pdf : option Document;
  current_page : option Z;
  move_history : list (Z * Z);
  history_index : Z
}.

Definition set_pdf (st : PDFApp) (pdf : option Document) : PDFApp :=
  {| current_pdf := pdf; current_page := current_page st;
     move_history := move_history st; history_index := history_index st |}.

Definition set_history_index (st : PDFApp) (i : Z) : PDFApp :=
  {| current_pdf := current_pdf st; current_page := current_page st;
     move_history := move_history st; history_index := i |}.

(** What the user is shown by a handler.  A [Critical] message ends
    with the text of the exception, which is the environment's; only
    the fixed part before it is kept. *)
Inductive report :=
  | Silent
  | Warning (msg : string)
  | Critical (msg : string)
  | Information (msg : string).

(** A handler either returns (having shown [report]) or lets an
    exception escape; both leave a session state behind. *)
Inductive outcome :=
  | Returned (r : report) (st : PDFApp)
  | Uncaught (st : PDFApp).

Definition state_of (o : outcome) : PDFApp :=
  match o with Returned _ st => st | Uncaught st => st end.

(** Result of a helper that signals failure by raising. *)
Inductive result :=
  | Ok (st : PDFApp)
  | Raised (st : PDFApp).

Definition result_state (r : result) : PDFApp :=
  match r with Ok st => st | Raised st => st end.

(** The handle [d] after [d.close()]. *)
Definition closed (d : Document) : Document :=
  {| name := name d; pages := pages d; is_closed := true |}.

(** The handle from [fitz.open(d.name)] once the file holds [new_pdf]. *)
Definition reopened (d : Document) (new_pdf : list Page) : Document :=
  {| name := name d; pages := new_pdf; is_closed := false |}.

(** Where the environment makes a reorder fail, if at all: while the
    new document is built, at [save], at [os.replace], at the reopening
    [fitz.open], or while the views are refreshed. *)
Inductive fault :=
  | NoFault
  | FaultBuild
  | FaultSave
  | FaultReplace
  | FaultReopen
  | FaultRefresh.

(** [_init_state] *)
Definition _init_state : PDFApp :=
  {| current_pdf := None; current_page := None;
     move_history := []; history_index := -1 |}.

(** [add_to_move_history] *)
Definition add_to_move_history (st : PDFApp) (source target : Z) : PDFApp :=
  let h := move_history st in
  let h :=
    if history_index st <? Z.of_nat (length h) - 1
    then py_slice_to h (history_index st + 1) else h in
  let h := h ++ [(source, target)] in
  {| current_pdf := current_pdf st; current_page := current_page st;
     move_history := h; history_index := Z.of_nat (length h) - 1 |}.

(** The loops that fill the new document, as written in
    [PDFApp._move_page] (lines 443-475). *)
Definition _move_page_build (cur : list Page) (source target : Z) : list Page :=
  let copy := fun new_pdf i => insert_pdf new_pdf cur i i in
  let shift := fun new_pdf i => insert_pdf new_pdf cur (i + 1) (i + 1) in
  let n := Z.of_nat (length cur) in
  if target >? source then
    let new_pdf := foldl copy [] (py_range 0 source) in
    let new_pdf := foldl shift new_pdf (py_range source target) in
    let new_pdf := copy new_pdf source in
    foldl copy new_pdf (py_range (target + 1) n)
  else
    let new_pdf := foldl copy [] (py_range 0 target) in
    let new_pdf := copy new_pdf source in
    let new_pdf := foldl copy new_pdf (py_range target source) in
    foldl copy new_pdf (py_range (source + 1) n).

(** The same loops as written in [ThumbnailWidget.move_page]
    (lines 258-290). *)
Definition move_page_build (cur : list Page) (source target : Z) : list Page :=
  let copy := fun new_pdf i => insert_pdf new_pdf cur i i in
  let shift := fun new_pdf i => insert_pdf new_pdf cur (i + 1) (i + 1) in
  let n := Z.of_nat (length cur) in
  if target >? source then
    let new_pdf := foldl copy [] (py_range 0 source) in
    let new_pdf := foldl shift new_pdf (py_range source target) in
    let new_pdf := copy new_pdf source in
    foldl copy new_pdf (py_range (target + 1) n)
  else
    let new_pdf := foldl copy [] (py_range 0 target) in
    let new_pdf := copy new_pdf source in
    let new_pdf := foldl copy new_pdf (py_range target source) in
    foldl copy new_pdf (py_range (source + 1) n).

(** Saving to the temporary file, replacing the original, reopening
    it and refreshing the views (the tail shared by both reorder
    methods).  [Raised] carries the state at the point of failure:
    until [close()] the session is untouched; after it the old handle
    is closed; after the reopening the session holds the new document. *)
Definition persist (st : PDFApp) (d : Document) (new_pdf : list Page)
    (f : fault) : result :=
  match f with
  | FaultBuild => Raised st
  | FaultSave => Raised st
  | _ =>
      if negb (can_save new_pdf) then Raised st
      else match f with
           | FaultReplace | FaultReopen => Raised (set_pdf st (Some (closed d)))
           | FaultRefresh => Raised (set_pdf st (Some (reopened d new_pdf)))
           | _ => Ok (set_pdf st (Some (reopened d new_pdf)))
           end
  end.

(** [_move_page(source, target)], with 1-based arguments: moves a page
    without touching the history; every exception is re-raised. *)
Definition _move_page (st : PDFApp) (source target : Z) (f : fault) : result :=
  let source := source - 1 in
  let target := target - 1 in
  match current_pdf st with
  | None => Raised st
  | Some d =>
      if is_closed d then Raised st
      else persist st d (_move_page_build (pages d) source target) f
  end.

(** [undo_page] *)
Definition undo_page (st : PDFApp) (f : fault) : outcome :=
  match truthy (current_pdf st) with
  | None => Uncaught st
  | Some b =>
      if negb b || (history_index st <? 0) then Returned Silent st
      else
        match py_index (move_history st) (history_index st) with
        | None => Returned (Critical "Error undoing page move: ") st
        | Some (source, target) =>
            match _move_page st (target + 1) (source + 1) f with
            | Ok st' =>
                Returned Silent (set_history_index st' (history_index st' - 1))
            | Raised st' => Returned (Critical "Error undoing page move: ") st'
            end
        end
  end.

(** [redo_page]: the cursor is advanced before the record is read and
    the page is moved. *)
Definition redo_page (st : PDFApp) (f : fault) : outcome :=
  match truthy (current_pdf st) with
  | None => Uncaught st
  | Some b =>
      if negb b
         || (history_index st >=? Z.of_nat (length (move_history st)) - 1)
      then Returned Silent st
      else
        let st := set_history_index st (history_index st + 1) in
        match py_index (move_history st) (history_index st) with
        | None => Returned (Critical "Error redoing page move: ") st
        | Some (source, target) =>
            match _move_page st (source + 1) (target + 1) f with
            | Ok st' => Returned Silent st'
            | Raised st' => Returned (Critical "Error redoing page move: ") st'
            end
        end
  end.

(** The text of the move field, ["<source>,<target>"] with 1-based
    numbers, as zero-based indices; [None] is [ValueError]. *)
Definition parse_move (text : string) : option (Z * Z) :=
  match split_on "," (strip text) with
  | [a; b] =>
      source ← py_int a;
      target ← py_int b;
      Some (source - 1, target - 1)
  | _ => None
  end.

Definition move_format_warning : string :=
  "Please use format: source,target (e.g., 2,3)".

(** [ThumbnailWidget.move_page], on the session of its parent window;
    [text] is the content of the move field. *)
Definition move_page (st : PDFApp) (text : string) (f : fault) : outcome :=
  match current_pdf st, truthy (current_pdf st) with
  | Some d, Some true =>
      match parse_move text with
      | None => Returned (Warning move_format_warning) st
      | Some (source, target) =>
          let n := Z.of_nat (length (pages d)) in
          if (source <? 0) || (source >=? n) || (target <? 0) || (target >=? n)
          then Returned (Warning move_format_warning) st
          else if source =? target then Returned Silent st
          else
            match persist st d (move_page_build (pages d) source target) f with
            | Ok st' => Returned Silent (add_to_move_history st' source target)
            | Raised st' => Returned (Critical "Error moving pages: ") st'
            end
      end
  | _, Some _ => Returned (Warning "Please open a PDF first") st
  | _, None => Uncaught st
  end.

(** [close_pdf]: every exception is caught and reported. *)
Definition close_pdf (st : PDFApp) : outcome :=
  match truthy (current_pdf st) with
  | None => Returned (Critical "Error closing PDF: ") st
  | Some false => Returned Silent st
  | Some true =>
      Returned Silent
        {| current_pdf := None; current_page := None;
           move_history := move_history st;
           history_index := history_index st |}
  end.

(** What [fitz.open(fname)] and the first display do for the chosen
    file. *)
Inductive load_result :=
  | OpenFails
  | OpensNonPdf (pgs : list Page)
  | OpensPdf (pgs : list Page) (refresh_ok : bool).

(** [_load_and_display_pdf] *)
Definition _load_and_display_pdf (st : PDFApp) (fname : string)
    (ld : load_result) : result :=
  let st := state_of (close_pdf st) in
  let opened pgs := {| name := fname; pages := pgs; is_closed := false |} in
  match ld with
  | OpenFails => Raised (state_of (close_pdf st))
  | OpensNonPdf pgs =>
      Raised (state_of (close_pdf (set_pdf st (Some (opened pgs)))))
  | OpensPdf pgs refresh_ok =>
      let st :=
        {| current_pdf := Some (opened pgs); current_page := Some 0;
           move_history := move_history st;
           history_index := history_index st |} in
      if refresh_ok then Ok st else Raised (state_of (close_pdf st))
  end.

(** ** Splitting *)

(** One comma-separated segment of a group, added to the group's
    page set; [None] is [ValueError]. *)
Definition parse_segment (pgs : gset Z) (segment : string) : option (gset Z) :=
  let segment := strip segment in
  if contains "-" segment then
    match py_int <$> split_on "-" segment with
    | [Some start; Some end_] =>
        Some (pgs ∪ list_to_set (py_range (start - 1) end_))
    | _ => None
    end
  else
    n ← py_int segment;
    Some (pgs ∪ {[ n - 1 ]}).

(** [sorted(pages)] *)
Definition sorted (pgs : gset Z) : list Z := merge_sort Z.le (elements pgs).

(** One semicolon-separated part: the sorted list of its page set. *)
Definition parse_part (part : string) : option (list Z) :=
  sorted <$> foldl (fun acc segment => acc ≫= fun pgs => parse_segment pgs segment)
                   (Some ∅) (split_on "," part).

(** The page groups of a range text such as ["1,4;2-3;5-6"]. *)
Definition parse_page_groups (ranges_text : string) : option (list (list Z)) :=
  mapM parse_part (split_on ";" ranges_text).

(** [any(p < 0 or p >= len(self.current_pdf) for p in all_pages)] *)
Definition invalid_pages (n : Z) (page_groups : list (list Z)) : bool :=
  existsb (fun p => (p <? 0) || (p >=? n)) (concat page_groups).

(** The environment of a split: the directory picked in the dialog
    (empty when cancelled), whether the output folder can be created,
    and whether the file of part [i] (counted from 0) can be written. *)
Record split_env := {
  output_dir : string;
  makedirs_ok : bool;
  save_ok : nat -> bool
}.

(** The writing loop: the files written so far, as (part number, pages),
    and whether the loop ran to its end. *)
Fixpoint write_parts (cur : list Page) (env : split_env) (i : nat)
    (page_groups : list (list Z)) : list (Z * list Page) * bool :=
  match page_groups with
  | [] => ([], true)
  | pgs :: rest =>
      let output_pdf := foldl (fun out p => insert_pdf out cur p p) [] pgs in
      if can_save output_pdf && save_ok env i then
        let '(files, ok) := write_parts cur env (S i) rest in
        ((Z.of_nat i + 1, output_pdf) :: files, ok)
      else ([], false)
  end.

Inductive split_outcome :=
  | SplitReturned (r : report) (files : list (Z * list Page))
  | SplitUncaught.

Definition files_written (o : split_outcome) : list (Z * list Page) :=
  match o with SplitReturned _ files => files | SplitUncaught => [] end.

Definition split_format_warning : string :=
  "Please enter valid page numbers in format: 1,4;2-3;5-6".

(** [split_pdf]; [text] is the content of the split field. *)
Definition split_pdf (st : PDFApp) (text : string) (env : split_env)
  : split_outcome :=
  match current_pdf st, truthy (current_pdf st) with
  | Some d, Some true =>
      let ranges_text := strip text in
      if String.eqb ranges_text "" then
        SplitReturned (Warning "Please enter page ranges") []
      else
        match parse_page_groups ranges_text with
        | None => SplitReturned (Warning split_format_warning) []
        | Some page_groups =>
            if invalid_pages (Z.of_nat (length (pages d))) page_groups then
              SplitReturned (Warning split_format_warning) []
            else if String.eqb (output_dir env) "" then
              SplitReturned Silent []
            else if negb (makedirs_ok env) then
              SplitReturned (Critical "Error splitting PDF: ") []
            else
              match write_parts (pages d) env 0 page_groups with
              | (files, true) =>
                  SplitReturned
                    (Information
                       ("PDF split successfully into "
                        ++ py_str (Z.of_nat (length page_groups))
                        ++ " parts!")%string)
                    files
              | (files, false) =>
                  SplitReturned (Critical "Error splitting PDF: ") files
              end
        end
  | _, Some _ => SplitReturned (Warning "Please open a PDF first") []
  | _, None => SplitUncaught
  end.

End Session.

Arguments Document : clear implicits.
Arguments PDFApp : clear implicits.
Arguments outcome : clear implicits.
Arguments result : clear implicits.
Arguments load_result : clear implicits.
Arguments split_outcome : clear implicits.

(** ** Navigation, opening and merging *)

(** [l.pop(i)]: the list without its element at [i]; negative indices
    count from the end; [None] is [IndexError]. *)
Definition py_pop {A} (l : list A) (i : Z) : option (list A) :=
  let n := Z.of_nat (length l) in
  if (0 <=? i) && (i <? n) then Some (delete (Z.to_nat i) l)
  else if (- n <=? i) && (i <? 0) then Some (delete (Z.to_nat (n + i)) l)
  else None.

(** [l[-1]] of a list known to be non-empty (the result of a split). *)
Definition py_last (l : list string) : string := default EmptyString (last l).

(** [s.replace(a, b)] for one-character [a] and [b]. *)
Fixpoint replace_char (a b : ascii) (s : string) : string :=
  match s with
  | EmptyString => EmptyString
  | String c s' =>
      String (if Ascii.eqb c a then b else c) (replace_char a b s')
  end.

(** The text before the last [sep] of [s], if [sep] occurs. *)
Fixpoint before_last (sep : ascii) (s : string) : option string :=
  match s with
  | EmptyString => None
  | String c s' =>
      match before_last sep s' with
      | Some r => Some (String c r)
      | None => if Ascii.eqb c sep then Some EmptyString else None
      end
  end.

(** [s.rsplit(sep, 1)[0]] *)
Definition rsplit1_head (sep : ascii) (s : string) : string :=
  default s (before_last sep s).

(** The file name shown in a row of the merge table
    ([update_merge_table]):
    [pdf_path.replace("/", "\\").split("\\")[-1]]. *)
Definition merge_row_name (pdf_path : string) : string :=
  py_last (split_on "\" (replace_char "/" "\" pdf_path)).

(** The base name that names the split folder ([split_pdf]):
    [name.rsplit(".", 1)[0].split("/")[-1].split("\\")[-1]]. *)
Definition split_base_name (name : string) : string :=
  py_last (split_on "\" (py_last (split_on "/" (rsplit1_head "." name)))).

(** [Config.PDF_MAGIC_NUMBER] *)
Definition PDF_MAGIC_NUMBER : string := "%PDF".

(** [_validate_pdf_file]; [read4 fname] is what [file.read(4)] returns
    for the file, [None] when it cannot be opened or read. *)
Definition _validate_pdf_file (read4 : string -> option string)
    (fname : string) : report * bool :=
  match read4 fname with
  | None => (Critical "Error validating PDF: ", false)
  | Some head =>
      if String.eqb head PDF_MAGIC_NUMBER then (Silent, true)
      else (Warning "Not a valid PDF file", false)
  end.

(** One round of the loop of [add_to_merge]: the merge list and the
    files refused so far (each refusal shows an error box). *)
Definition add_one (read4 : string -> option string)
    (acc : list string * list string) (fname : string)
  : list string * list string :=
  let '(merge_list, refused) := acc in
  match read4 fname with
  | Some head =>
      if String.eqb head PDF_MAGIC_NUMBER then
        (if bool_decide (fname ∈ merge_list) then merge_list
         else merge_list ++ [fname], refused)
      else (merge_list, refused ++ [fname])
  | None => (merge_list, refused ++ [fname])
  end.

(** [add_to_merge]; [fnames] are the files picked in the dialog. *)
Definition add_to_merge (merge_list fnames : list string)
    (read4 : string -> option string) : list string * list string :=
  foldl (add_one read4) (merge_list, []) fnames.

(** [remove_from_merge]: [None] when [pop] raises. *)
Definition remove_from_merge (merge_list : list string) (row : Z)
  : option (list string) :=
  py_pop merge_list row.

Section Viewer.

Context {Page : Type}.

Definition set_current_page (st : PDFApp Page) (p : option Z) : PDFApp Page :=
  {| current_pdf := current_pdf st; current_page := p;
     move_history := move_history st; history_index := history_index st |}.

(** [display_page]: changes no state; [render_ok] tells whether the
    library fetches and renders the current page. *)
Definition display_page (st : PDFApp Page) (render_ok : bool) : outcome Page :=
  match truthy (current_pdf st) with
  | None => Uncaught st
  | Some b =>
      if negb b then Returned Silent st
      else match current_page st with
           | None => Returned Silent st
           | Some _ =>
               if render_ok then Returned Silent st
               else Returned (Critical "Error displaying PDF: ") st
           end
  end.

(** [prev_page] *)
Definition prev_page (st : PDFApp Page) (render_ok : bool) : outcome Page :=
  match truthy (current_pdf st) with
  | None => Uncaught st
  | Some b =>
      match current_page st with
      | Some p =>
          if b && (p >? 0)
          then display_page (set_current_page st (Some (p - 1))) render_ok
          else Returned Silent st
      | None => Returned Silent st
      end
  end.

(** [next_page] *)
Definition next_page (st : PDFApp Page) (render_ok : bool) : outcome Page :=
  match current_pdf st, truthy (current_pdf st) with
  | _, None => Uncaught st
  | Some d, Some true =>
      match current_page st with
      | Some p =>
          if p <? Z.of_nat (length (pages d)) - 1
          then display_page (set_current_page st (Some (p + 1))) render_ok
          else Returned Silent st
      | None => Returned Silent st
      end
  | _, Some _ => Returned Silent st
  end.

(** Resetting the page field to [str(self.current_page + 1)] and
    warning; adding 1 to [None] raises [TypeError], which no handler
    of [go_to_page] catches. *)
Definition reset_page_input (st : PDFApp Page) (msg : string) : outcome Page :=
  match current_page st with
  | Some _ => Returned (Warning msg) st
  | None => Uncaught st
  end.

(** [go_to_page]; [text] is the content of the page field.  The test
    of [self.current_pdf] is inside the [try], so the [ValueError] of
    a closed handle is caught like that of [int()]. *)
Definition go_to_page (st : PDFApp Page) (text : string) (render_ok : bool)
  : outcome Page :=
  match current_pdf st, truthy (current_pdf st) with
  | _, None => reset_page_input st "Please enter a valid page number"
  | Some d, Some true =>
      match py_int text with
      | None => reset_page_input st "Please enter a valid page number"
      | Some n =>
          let page_num := n - 1 in
          if (0 <=? page_num) && (page_num <? Z.of_nat (length (pages d)))
          then display_page (set_current_page st (Some page_num)) render_ok
          else reset_page_input st "Invalid page number"
      end
  | _, Some _ => Returned Silent st
  end.

(** [ThumbnailWidget.thumbnail_clicked], for the page number bound to
    the thumbnail. *)
Definition thumbnail_clicked (st : PDFApp Page) (page_num : Z)
    (render_ok : bool) : outcome Page :=
  match truthy (current_pdf st) with
  | None => Uncaught st
  | Some true =>
      display_page (set_current_page st (Some page_num)) render_ok
  | Some false => Returned Silent st
  end.

(** [open_pdf]; [fname] is the file picked in the dialog, empty when
    the dialog is cancelled. *)
Definition open_pdf (st : PDFApp Page) (fname : string)
    (read4 : string -> option string) (ld : load_result Page) : outcome Page :=
  if String.eqb fname "" then Returned Silent st
  else
    match _validate_pdf_file read4 fname with
    | (r, false) => Returned r st
    | (_, true) =>
        match _load_and_display_pdf st fname ld with
        | Ok st' => Returned Silent st'
        | Raised st' => Returned (Critical "Error loading PDF: ") st'
        end
    end.

(** The environment of a merge: what [fitz.open(path)] yields ([None]
    when opening or inserting the file raises), the name given in the
    save dialog (empty when cancelled) and whether the save succeeds. *)
Record merge_env := {
  open_doc : string -> option (list Page);
  save_name : string;
  merge_save_ok : bool
}.

(** The loop of [merge_pdfs]: every file is opened and inserted whole
    ([insert_pdf] with its default range). *)
Definition merge_sources (env : merge_env) (paths : list string)
  : option (list Page) :=
  foldl (fun acc pdf_path =>
           output_pdf ← acc;
           pdf ← open_doc env pdf_path;
           Some (insert_pdf output_pdf pdf (-1) (-1)))
        (Some []) paths.

(** Result of [merge_pdfs]: the message, the merge list afterwards and
    the file written, if any. *)
Record merge_outcome := {
  merge_report : report;
  merge_list_after : list string;
  merge_written : option (string * list Page)
}.

(** [merge_pdfs] *)
Definition merge_pdfs (merge_list : list string) (env : merge_env)
  : merge_outcome :=
  let stop r := {| merge_report := r; merge_list_after := merge_list;
                   merge_written := None |} in
  match merge_list with
  | [] => stop (Warning "Please add PDF files to merge first!")
  | [_] => stop (Warning "Please add at least 2 PDF files to merge!")
  | _ =>
      match merge_sources env merge_list with
      | None => stop (Critical "Error merging PDFs: ")
      | Some output_pdf =>
          if String.eqb (save_name env) "" then stop Silent
          else if can_save output_pdf && merge_save_ok env then
            {| merge_report := Information "PDFs merged successfully!";
               merge_list_after := [];
               merge_written := Some (save_name env, output_pdf) |}
          else stop (Critical "Error merging PDFs: ")
      end
  end.

End Viewer.

Arguments merge_env : clear implicits.
Arguments merge_outcome : clear implicits.

(** ** Reference notions used by the statements *)

(** Removing the element at [source] and reinserting it at [target],
    as on a sequential list ([x = l.pop(source); l.insert(target, x)]). *)
Definition remove_reinsert {A} (l : list A) (source target : nat) : list A :=
  match l !! source with
  | Some x => let l' := delete source l in take target l' ++ x :: drop target l'
  | None => l
  end.

(** The page sequence of the session's document. *)
Definition pages_of {Page} (st : PDFApp Page) : list Page :=
  match current_pdf st with
  | Some d => pages d
  | None => []
  end.

(** The record the cursor points at, if any. *)
Definition active_move {Page} (st : PDFApp Page) : option (Z * Z) :=
  if history_index st <? 0 then None
  else move_history st !! Z.to_nat (history_index st).

(** The cursor invariant of the move history. *)
Definition history_invariant {Page} (st : PDFApp Page) : Prop :=
  -1 ≤ history_index st
       < Z.max (Z.of_nat (length (move_history st))) 1
  ∧ (history_index st = -1 ↔ active_move st = None).

(** Every recorded move names pages of the current document. *)
Definition history_in_range {Page} (st : PDFApp Page) : Prop :=
  Forall (fun m : Z * Z =>
            0 ≤ m.1 < Z.of_nat (length (pages_of st))
            ∧ 0 ≤ m.2 < Z.of_nat (length (pages_of st)))
         (move_history st).

(** An item of the range syntax, with its 1-based numbers. *)
Inductive item :=
  | Single (n : Z)
  | Range (start end_ : Z).

(** [item := NUMBER | NUMBER "-" NUMBER], a number being what [int()]
    accepts. *)
Definition read_item (segment : string) : option item :=
  match split_on "-" (strip segment) with
  | [n] => Single <$> py_int n
  | [a; b] => start ← py_int a; end_ ← py_int b; Some (Range start end_)
  | _ => None
  end.

(** The zero-based page indices an item stands for: the page itself,
    or every page from [start] to [end_] inclusive. *)
Definition covers (it : item) (p : Z) : Prop :=
  match it with
  | Single n => p = n - 1
  | Range start end_ => start - 1 ≤ p ≤ end_ - 1
  end.

(** Every group is a list of items. *)
Definition well_formed (ranges_text : string) : Prop :=
  Forall (fun part => Forall (fun segment => is_Some (read_item segment))
                             (split_on "," part))
         (split_on ";" ranges_text).

(** A range item whose start exceeds its end. *)
Definition descending_range (segment : string) : Prop :=
  ∃ sa sb a b,
    split_on "-" (strip segment) = [sa; sb]
    ∧ py_int sa = Some a ∧ py_int sb = Some b ∧ a > b.

(** The loop over the segments of one group, started from [acc]. *)
Definition fold_segments (acc : option (gset Z)) (segments : list string) :=
  foldl (fun acc segment => acc ≫= fun pgs => parse_segment pgs segment)
        acc segments.

(** A decimal numeral: digits only. *)
Fixpoint all_digits (s : string) : bool :=
  match s with
  | EmptyString => true
  | String c s' =>
      match digit_value c with Some _ => all_digits s' | None => false end
  end.

(** The value of a decimal numeral read after the prefix worth [acc]. *)
Fixpoint decimal (acc : Z) (s : string) : Z :=
  match s with
  | EmptyString => acc
  | String c s' =>
      match digit_value c with
      | Some d => decimal (10 * acc + d) s'
      | None => acc
      end
  end.

(** The range syntax of the split field, as a tree:
    [groups := group (";" group)*], [group := item ("," item)*],
    [item := NUMBER | NUMBER "-" NUMBER]. *)
Inductive item_syntax :=
  | SNumber (n : string)
  | SRange (a b : string).

(** [NUMBER]: a non-empty decimal numeral that [int()] still reads. *)
Definition numeral (s : string) : Prop :=
  all_digits s = true ∧ s ≠ EmptyString
  ∧ (String.length s ≤ int_max_str_digits)%nat.

Definition valid_item (it : item_syntax) : Prop :=
  match it with
  | SNumber n => numeral n
  | SRange a b => numeral a ∧ numeral b
  end.

Definition print_item (it : item_syntax) : string :=
  match it with
  | SNumber n => n
  | SRange a b => a ++ String "-" b
  end.

(** The strings of [l] with [sep] between them. *)
Fixpoint join (sep : ascii) (l : list string) : string :=
  match l with
  | [] => EmptyString
  | [s] => s
  | s :: l' => s ++ String sep (join sep l')
  end.

Definition print_group (g : list item_syntax) : string :=
  join "," (print_item <$> g).

Definition print_groups (gs : list (list item_syntax)) : string :=
  join ";" (print_group <$> gs).

(** The item a syntax tree denotes. *)
Definition item_of (it : item_syntax) : item :=
  match it with
  | SNumber n => Single (decimal 0 n)
  | SRange a b => Range (decimal 0 a) (decimal 0 b)
  end.

(** Every character of [s] satisfies [p]. *)
Fixpoint all_chars (p : ascii -> bool) (s : string) : bool :=
  match s with
  | EmptyString => true
  | String c s' => p c && all_chars p s'
  end.

(** A group of digits: a non-empty decimal numeral. *)
Definition digit_group (g : string) : Prop :=
  all_digits g = true ∧ g ≠ EmptyString.

(** [literal := digits ("_" digits)*] with at most 4300 digits in all;
    its value is that of the digits read in a row. *)
Definition literal_text (s : string) (v : Z) : Prop :=
  ∃ gs, gs ≠ [] ∧ Forall digit_group gs ∧ s = join "_" gs
        ∧ (sum_list (String.length <$> gs) ≤ int_max_str_digits)%nat
        ∧ v = foldl decimal 0 gs.

(** [number := space* ("+" | "-")? literal space*]: the texts [int()]
    reads, with the integer each one stands for; [space] is white
    space in the sense of [int()]. *)
Definition int_text (s : string) (v : Z) : Prop :=
  ∃ w1 sign lit w2 n,
    s = (w1 ++ sign ++ lit ++ w2)%string
    ∧ all_chars is_int_space w1 = true ∧ all_chars is_int_space w2 = true
    ∧ literal_text lit n
    ∧ (sign = EmptyString ∧ v = n
       ∨ sign = "+"%string ∧ v = n
       ∨ sign = "-"%string ∧ v = - n).

(** [segment := SPACE* (number | number "-" number) SPACE*] with
    numbers that hold no minus sign: the segments of the split field
    that stand for an item; [SPACE] is white space in the sense of
    [str.strip()]. *)
Definition item_text (segment : string) (it : item) : Prop :=
  ∃ w1 body w2,
    segment = (w1 ++ body ++ w2)%string
    ∧ all_chars is_space w1 = true ∧ all_chars is_space w2 = true
    ∧ match it with
      | Single n => int_text body n ∧ contains "-" body = false
      | Range start end_ =>
          ∃ a b, body = (a ++ String "-" b)%string
                 ∧ int_text a start ∧ contains "-" a = false
                 ∧ int_text b end_ ∧ contains "-" b = false
      end.

(** [move := SPACE* number "," number SPACE*]: the texts of the move
    field that name a source and a target, with these 1-based
    numbers. *)
Definition move_text (text : string) (source target : Z) : Prop :=
  ∃ w1 a b w2,
    text = (w1 ++ a ++ String "," b ++ w2)%string
    ∧ all_chars is_space w1 = true ∧ all_chars is_space w2 = true
    ∧ int_text a source ∧ int_text b target.

(** A text that is not empty and neither starts nor ends with a
    character satisfying [sp]. *)
Definition tight (sp : ascii -> bool) (s : string) : Prop :=
  s ≠ EmptyString ∧ drop_leading sp s = s ∧ drop_trailing sp s = s.

(** The session shows a page of an open document. *)
Definition page_valid {Page} (st : PDFApp Page) : Prop :=
  ∃ d p, current_pdf st = Some d ∧ is_closed d = false
         ∧ current_page st = Some p
         ∧ 0 ≤ p < Z.of_nat (length (pages d)).

(** No document, or an open one with pages. *)
Definition healthy {Page} (st : PDFApp Page) : Prop :=
  current_pdf st = None
  ∨ ∃ d, current_pdf st = Some d ∧ is_closed d = false ∧ pages d ≠ [].

(** The pages of [cur] at the indices of [group], in that order. *)
Definition select_pages {Page} (cur : list Page) (group : list Z) : list Page :=
  omap (fun p => cur !! Z.to_nat p) group.

(** The parts a split is to write: part [i+1] holds the pages of the
    [i]-th group. *)
Definition expected_parts {Page} (cur : list Page) (page_groups : list (list Z))
  : list (Z * list Page) :=
  imap (fun i group => (Z.of_nat i + 1, select_pages cur group)) page_groups.

(** ** Concrete sessions used in examples *)

Definition two_pages : Document nat :=
  {| name := "a.pdf"; pages := [10; 11]%nat; is_closed := false |}.

(** Two pages open, one move recorded and undone. *)
Definition st_undone : PDFApp nat :=
  {| current_pdf := Some two_pages; current_page := Some 0;
     move_history := [(0, 1)]; history_index := -1 |}.

(** Two pages open, one move recorded. *)
Definition st_moved : PDFApp nat :=
  {| current_pdf := Some two_pages; current_page := Some 0;
     move_history := [(0, 1)]; history_index := 0 |}.

Definition three_pages : Document nat :=
  {| name := "numbers.pdf"; pages := [10; 11; 12]%nat; is_closed := false |}.

(** Three pages freshly opened. *)
Definition st_three : PDFApp nat :=
  {| current_pdf := Some three_pages; current_page := Some 0;
     move_history := []; history_index := -1 |}.

(** Three pages open, two moves recorded, the second one undone. *)
Definition st_branch : PDFApp nat :=
  {| current_pdf := Some three_pages; current_page := Some 0;
     move_history := [(0, 1); (1, 2)]; history_index := 0 |}.

Definition one_page : Document nat :=
  {| name := "single.pdf"; pages := [10]%nat; is_closed := false |}.

Definition st_one : PDFApp nat :=
  {| current_pdf := Some one_page; current_page := Some 0;
     move_history := []; history_index := -1 |}.

(** A split environment in which nothing goes wrong. *)
Definition env_ok : split_env :=
  {| output_dir := "/out"; makedirs_ok := true; save_ok := fun _ => true |}.

(** Two sources for a merge: two pages and three pages. *)
Definition merge_env_ab : merge_env nat :=
  {| open_doc := fun pdf_path =>
       if String.eqb pdf_path "a.pdf" then Some [1; 2]%nat
       else if String.eqb pdf_path "b.pdf" then Some [3; 4; 5]%nat
       else None;
     save_name := "merged.pdf"; merge_save_ok := true |}.

(** The first bytes of some files: two PDFs, a text file, and nothing
    else that can be read. *)
Definition read4_demo (fname : string) : option string :=
  if String.eqb fname "a.pdf" then Some "%PDF"%string
  else if String.eqb fname "b.pdf" then Some "%PDF"%string
  else if String.eqb fname "notes.txt" then Some "Dear"%string
  else None.

(** * Properties *)

(** ** The reordering loops *)

Section Reorder.
Context {Page : Type}.
Implicit Types (cur new_pdf : list Page) (x : Page).

Lemma page_range_single cur i x :
  cur !! i = Some x → page_range cur (Z.of_nat i) (Z.of_nat i) = [x].
Proof.
  intros Hx. unfold page_range.
  rewrite Z.leb_refl, Z.sub_diag, Z.add_0_l.
  rewrite seqZ_cons, seqZ_nil by lia.
  cbn [omap list_omap]. by rewrite Nat2Z.id, Hx.
Qed.

Lemma insert_pdf_single new_pdf cur i x :
  cur !! i = Some x →
  insert_pdf new_pdf cur (Z.of_nat i) (Z.of_nat i) = new_pdf ++ [x].
Proof.
  intros Hx. unfold insert_pdf.
  pose proof (lookup_lt_Some _ _ _ Hx) as Hlt.
  replace (Z.min (Z.max (Z.of_nat i) 0) _) with (Z.of_nat i) by lia.
  assert ((Z.of_nat i <? 0) = false) as -> by lia.
  replace (Z.min (Z.of_nat i) _) with (Z.of_nat i) by lia.
  by rewrite (page_range_single _ _ x).
Qed.

Lemma copy_loop_gen cur (f : Z → Z) new_pdf (pre mid post : list Page) a :
  cur = pre ++ mid ++ post →
  (∀ j : nat, f (a + Z.of_nat j) = Z.of_nat (length pre + j)) →
  foldl (fun out i => insert_pdf out cur (f i) (f i)) new_pdf
        (seqZ a (Z.of_nat (length mid)))
  = new_pdf ++ mid.
Proof.
  revert new_pdf pre a.
  induction mid as [|x mid IH]; intros new_pdf pre a Hcur Hf.
  - by rewrite app_nil_r.
  - simpl length. rewrite seqZ_cons by lia. simpl foldl.
    specialize (Hf 0%nat) as Hf0. rewrite Z.add_0_r, Nat.add_0_r in Hf0.
    rewrite Hf0, (insert_pdf_single _ _ _ x).
    2:{ subst cur. by rewrite lookup_app_r, Nat.sub_diag. }
    replace (Z.pred (Z.of_nat (S (length mid))))
      with (Z.of_nat (length mid)) by lia.
    rewrite (IH _ (pre ++ [x])).
    + by rewrite <- app_assoc.
    + subst cur. by rewrite <- app_assoc.
    + intros j. rewrite length_app. simpl length.
      replace (Z.succ a + Z.of_nat j) with (a + Z.of_nat (S j)) by lia.
      rewrite Hf. f_equal. lia.
Qed.

Lemma copy_loop cur new_pdf (pre mid post : list Page) a b :
  cur = pre ++ mid ++ post →
  a = Z.of_nat (length pre) → b = Z.of_nat (length pre + length mid) →
  foldl (fun out i => insert_pdf out cur i i) new_pdf (py_range a b)
  = new_pdf ++ mid.
Proof.
  intros Hcur -> ->. unfold py_range.
  replace (Z.of_nat (length pre + length mid) - Z.of_nat (length pre))
    with (Z.of_nat (length mid)) by lia.
  apply (copy_loop_gen cur (fun i => i) new_pdf pre mid post); [done|].
  intros j. lia.
Qed.

Lemma shift_loop cur new_pdf (pre mid post : list Page) x a b :
  cur = pre ++ x :: mid ++ post →
  a = Z.of_nat (length pre) → b = Z.of_nat (length pre + length mid) →
  foldl (fun out i => insert_pdf out cur (i + 1) (i + 1)) new_pdf (py_range a b)
  = new_pdf ++ mid.
Proof.
  intros Hcur -> ->. unfold py_range.
  replace (Z.of_nat (length pre + length mid) - Z.of_nat (length pre))
    with (Z.of_nat (length mid)) by lia.
  apply (copy_loop_gen cur (fun i => i + 1) new_pdf (pre ++ [x]) mid post).
  - subst cur. by rewrite <- app_assoc.
  - intros j. rewrite length_app. simpl length. lia.
Qed.

(** Forward move: the page [x] at index [length pre] goes behind [mid]. *)
Lemma build_forward (pre mid post : list Page) x source target :
  mid ≠ [] →
  source = Z.of_nat (length pre) →
  target = Z.of_nat (length pre + length mid) →
  _move_page_build (pre ++ x :: mid ++ post) source target
  = pre ++ mid ++ x :: post.
Proof.
  intros Hmid -> ->. unfold _move_page_build. cbv zeta.
  set (cur := pre ++ x :: mid ++ post).
  match goal with |- context [?a >? ?b] =>
    assert ((a >? b) = true) as ->
  end.
  { destruct mid; [done|]. rewrite Z.gtb_ltb. apply Z.ltb_lt.
    cbn [length]. lia. }
  rewrite (copy_loop cur [] [] pre (x :: mid ++ post)); [|done..].
  rewrite (shift_loop cur _ pre mid post x); [|done..].
  rewrite (insert_pdf_single _ _ (length pre) x).
  2:{ unfold cur. by rewrite lookup_app_r, Nat.sub_diag. }
  rewrite (copy_loop cur _ (pre ++ x :: mid) post []).
  - simpl. by rewrite <- !app_assoc.
  - unfold cur. by rewrite app_nil_r, <- app_assoc.
  - rewrite length_app. cbn [length]. lia.
  - unfold cur. rewrite !length_app. cbn [length]. rewrite length_app. lia.
Qed.

(** Backward move: the page [x] at index [length (pre ++ mid)] goes
    before [mid]. *)
Lemma build_backward (pre mid post : list Page) x source target :
  target = Z.of_nat (length pre) →
  source = Z.of_nat (length pre + length mid) →
  _move_page_build (pre ++ mid ++ x :: post) source target
  = pre ++ x :: mid ++ post.
Proof.
  intros -> ->. unfold _move_page_build. cbv zeta.
  set (cur := pre ++ mid ++ x :: post).
  match goal with |- context [?a >? ?b] =>
    assert ((a >? b) = false) as ->
  end.
  { rewrite Z.gtb_ltb. apply Z.ltb_ge. lia. }
  rewrite (copy_loop cur [] [] pre (mid ++ x :: post)); [|done..].
  rewrite (insert_pdf_single _ _ (length pre + length mid) x).
  2:{ unfold cur. rewrite app_assoc, lookup_app_r; rewrite length_app; [|lia].
      by rewrite Nat.sub_diag. }
  rewrite (copy_loop cur _ pre mid (x :: post) (Z.of_nat (length pre))
             (Z.of_nat (length pre + length mid))); [|done..].
  rewrite (copy_loop cur _ (pre ++ mid ++ [x]) post []).
  - simpl. by rewrite <- !app_assoc.
  - unfold cur. by rewrite app_nil_r, <- !app_assoc.
  - rewrite !length_app. cbn [length]. lia.
  - unfold cur. rewrite !length_app. cbn [length]. lia.
Qed.

(** The two copies of the loops agree. *)
Lemma move_page_build_eq cur source target :
  move_page_build cur source target = _move_page_build cur source target.
Proof. reflexivity. Qed.

Lemma remove_reinsert_forward (pre mid post : list Page) x :
  remove_reinsert (pre ++ x :: mid ++ post) (length pre) (length pre + length mid)
  = pre ++ mid ++ x :: post.
Proof.
  unfold remove_reinsert.
  rewrite lookup_app_r, Nat.sub_diag by lia. cbn [lookup list_lookup].
  rewrite delete_middle, app_assoc, <- length_app.
  by rewrite take_app_length, drop_app_length, <- app_assoc.
Qed.

Lemma remove_reinsert_backward (pre mid post : list Page) x :
  remove_reinsert (pre ++ mid ++ x :: post) (length pre + length mid) (length pre)
  = pre ++ x :: mid ++ post.
Proof.
  unfold remove_reinsert.
  rewrite app_assoc, <- length_app, lookup_app_r, Nat.sub_diag by lia.
  cbn [lookup list_lookup].
  rewrite delete_middle, <- app_assoc.
  by rewrite take_app_length, drop_app_length.
Qed.

(** Cutting a list around two positions [i <= j]. *)
Lemma cut_forward cur (i j : nat) :
  (i < j < length cur)%nat →
  ∃ pre x mid post,
    cur = pre ++ x :: mid ++ post ∧ length pre = i ∧
    (length pre + length mid)%nat = j ∧ mid ≠ [].
Proof.
  intros Hij.
  destruct (lookup_lt_is_Some_2 cur i) as [x Hx]; [lia|].
  exists (take i cur), x, (take (j - i) (drop (S i) cur)), (drop (S j) cur).
  assert (length (take i cur) = i) as Hpre by (rewrite length_take; lia).
  assert (length (take (j - i) (drop (S i) cur)) = (j - i)%nat) as Hmid
    by (rewrite length_take, length_drop; lia).
  split_and!; [|done|lia|].
  - rewrite <- (take_drop_middle cur i x Hx) at 1. do 2 f_equal.
    rewrite <- (take_drop (j - i) (drop (S i) cur)) at 1. f_equal.
    rewrite drop_drop. f_equal. lia.
  - intros Hnil. rewrite Hnil in Hmid. simpl in Hmid. lia.
Qed.

Lemma cut_backward cur (i j : nat) :
  (i ≤ j < length cur)%nat →
  ∃ pre mid x post,
    cur = pre ++ mid ++ x :: post ∧ length pre = i ∧
    (length pre + length mid)%nat = j.
Proof.
  intros Hij.
  destruct (lookup_lt_is_Some_2 cur j) as [x Hx]; [lia|].
  exists (take i cur), (drop i (take j cur)), x, (drop (S j) cur).
  assert (length (take i cur) = i) as Hpre by (rewrite length_take; lia).
  split_and!; [|done|rewrite length_take, length_drop, length_take; lia].
  rewrite <- (take_drop_middle cur j x Hx) at 1.
  rewrite app_assoc. f_equal.
  rewrite <- (take_drop i (take j cur)) at 1. f_equal.
  rewrite take_take. f_equal. lia.
Qed.

Lemma build_remove_reinsert cur (source target : Z) :
  0 ≤ source < Z.of_nat (length cur) →
  0 ≤ target < Z.of_nat (length cur) →
  _move_page_build cur source target
  = remove_reinsert cur (Z.to_nat source) (Z.to_nat target).
Proof.
  intros Hs Ht. destruct (Z.lt_ge_cases source target) as [Hlt|Hge].
  - destruct (cut_forward cur (Z.to_nat source) (Z.to_nat target))
      as (pre & x & mid & post & -> & Hpre & Hmid & Hne); [lia|].
    rewrite (build_forward pre mid post x) by (done || lia).
    by rewrite <- Hpre at 1; rewrite <- Hmid, remove_reinsert_forward.
  - destruct (cut_backward cur (Z.to_nat target) (Z.to_nat source))
      as (pre & mid & x & post & -> & Hpre & Hmid); [lia|].
    rewrite (build_backward pre mid post x) by lia.
    by rewrite <- Hpre at 1; rewrite <- Hmid, remove_reinsert_backward.
Qed.

Lemma build_Permutation cur (source target : Z) :
  0 ≤ source < Z.of_nat (length cur) →
  0 ≤ target < Z.of_nat (length cur) →
  _move_page_build cur source target ≡ₚ cur.
Proof.
  intros Hs Ht. destruct (Z.lt_ge_cases source target) as [Hlt|Hge].
  - destruct (cut_forward cur (Z.to_nat source) (Z.to_nat target))
      as (pre & x & mid & post & -> & Hpre & Hmid & Hne); [lia|].
    rewrite (build_forward pre mid post x) by (done || lia).
    apply Permutation_app_head. by rewrite Permutation_middle.
  - destruct (cut_backward cur (Z.to_nat target) (Z.to_nat source))
      as (pre & mid & x & post & -> & Hpre & Hmid); [lia|].
    rewrite (build_backward pre mid post x) by lia.
    apply Permutation_app_head. by rewrite Permutation_middle.
Qed.

Lemma build_length cur (source target : Z) :
  0 ≤ source < Z.of_nat (length cur) →
  0 ≤ target < Z.of_nat (length cur) →
  length (_move_page_build cur source target) = length cur.
Proof. intros Hs Ht. by rewrite build_Permutation. Qed.

Lemma build_inverse cur (source target : Z) :
  0 ≤ source < Z.of_nat (length cur) →
  0 ≤ target < Z.of_nat (length cur) →
  _move_page_build (_move_page_build cur source target) target source = cur.
Proof.
  intros Hs Ht. destruct (Z.lt_ge_cases source target) as [Hlt|Hge].
  - destruct (cut_forward cur (Z.to_nat source) (Z.to_nat target))
      as (pre & x & mid & post & -> & Hpre & Hmid & Hne); [lia|].
    rewrite (build_forward pre mid post x) by (done || lia).
    by rewrite (build_backward pre mid post x) by lia.
  - destruct (cut_backward cur (Z.to_nat target) (Z.to_nat source))
      as (pre & mid & x & post & -> & Hpre & Hmid); [lia|].
    rewrite (build_backward pre mid post x) by lia.
    destruct mid as [|y mid].
    + cbn [length] in Hmid. rewrite (build_backward pre [] post x); [done|cbn [length]; lia..].
    + by rewrite (build_forward pre (y :: mid) post x) by (done || lia).
Qed.

Lemma remove_reinsert_lookup {A} (l : list A) (s t i : nat) :
  (s < length l)%nat → (t < length l)%nat →
  remove_reinsert l s t !! i =
    if decide (i < t)%nat then
      if decide (i < s)%nat then l !! i else l !! S i
    else if decide (i = t) then l !! s
    else if decide (i - 1 < s)%nat then l !! (i - 1)%nat else l !! i.
Proof.
  intros Hs Ht. unfold remove_reinsert.
  destruct (lookup_lt_is_Some_2 l s Hs) as [x Hx]. rewrite Hx. cbv zeta.
  assert (length (take t (delete s l)) = t) as Hlen.
  { rewrite length_take, length_delete by eauto. lia. }
  destruct (decide (i < t)%nat) as [Hit|Hit].
  - rewrite lookup_app_l, lookup_take_lt, list_lookup_delete by lia.
    by destruct (decide (i < s)%nat).
  - rewrite lookup_app_r, Hlen by lia.
    destruct (decide (i = t)) as [->|Hne].
    + by rewrite Nat.sub_diag.
    + rewrite lookup_cons_ne_0, lookup_drop, list_lookup_delete by lia.
      replace (t + pred (i - t))%nat with (i - 1)%nat by lia.
      destruct (decide (i - 1 < s)%nat); [done|]. f_equal. lia.
Qed.

End Reorder.

(** ** The session operations *)

Section SessionProps.
Context {Page : Type}.
Implicit Types (st : PDFApp Page) (d : Document Page) (f : fault).

Lemma can_save_build (cur : list Page) source target :
  0 ≤ source < Z.of_nat (length cur) →
  0 ≤ target < Z.of_nat (length cur) →
  can_save (_move_page_build cur source target) = true.
Proof.
  intros Hs Ht. pose proof (build_length cur source target Hs Ht) as Hlen.
  destruct (_move_page_build cur source target); [|done].
  simpl in Hlen. lia.
Qed.

Lemma truthy_open d :
  is_closed d = false → pages d ≠ [] → truthy (Some d) = Some true.
Proof.
  intros Hc Hne. unfold truthy, doc_len. rewrite Hc. simpl.
  destruct (pages d); [done|]. done.
Qed.

Lemma _move_page_NoFault st d source target :
  current_pdf st = Some d → is_closed d = false →
  0 ≤ source < Z.of_nat (length (pages d)) →
  0 ≤ target < Z.of_nat (length (pages d)) →
  _move_page st (source + 1) (target + 1) NoFault
  = Ok (set_pdf st (Some (reopened d (_move_page_build (pages d) source target)))).
Proof.
  intros Hd Hc Hs Ht. unfold _move_page, persist. rewrite Hd, Hc.
  replace (source + 1 - 1) with source by lia.
  replace (target + 1 - 1) with target by lia.
  by rewrite can_save_build.
Qed.

Lemma move_page_NoFault st d text source target :
  current_pdf st = Some d → is_closed d = false →
  parse_move text = Some (source, target) →
  0 ≤ source < Z.of_nat (length (pages d)) →
  0 ≤ target < Z.of_nat (length (pages d)) →
  source ≠ target →
  move_page st text NoFault
  = Returned Silent
      (add_to_move_history
         (set_pdf st (Some (reopened d (_move_page_build (pages d) source target))))
         source target).
Proof.
  intros Hd Hc Hp Hs Ht Hne. unfold move_page, persist.
  rewrite Hd, truthy_open, Hp; [|done|destruct (pages d); simpl in *; [lia|done]].
  assert ((source <? 0) || (source >=? Z.of_nat (length (pages d)))
          || (target <? 0) || (target >=? Z.of_nat (length (pages d))) = false) as ->.
  { rewrite !Z.geb_leb. 
    repeat (apply orb_false_intro); (apply Z.ltb_ge || apply Z.leb_gt); lia. }
  assert ((source =? target) = false) as -> by (apply Z.eqb_neq; done).
  change (move_page_build (pages d) source target)
    with (_move_page_build (pages d) source target).
  by rewrite can_save_build.
Qed.

Lemma py_index_last {A} (h : list A) (m : A) :
  py_index (h ++ [m]) (Z.of_nat (length h)) = Some m.
Proof.
  unfold py_index. rewrite length_app. cbn [length].
  assert ((0 <=? Z.of_nat (length h))
          && (Z.of_nat (length h) <? Z.of_nat (length h + 1)) = true) as ->.
  { apply andb_true_intro. split; [apply Z.leb_le|apply Z.ltb_lt]; lia. }
  by rewrite Nat2Z.id, lookup_app_r, Nat.sub_diag.
Qed.

(** Recording a move always ends with the cursor on the new record. *)
Lemma add_to_move_history_last st source target :
  ∃ h, move_history (add_to_move_history st source target)
         = h ++ [(source, target)]
       ∧ history_index (add_to_move_history st source target)
         = Z.of_nat (length h).
Proof.
  unfold add_to_move_history. cbn [move_history history_index].
  eexists. split; [done|]. rewrite length_app. cbn [length]. lia.
Qed.

Lemma py_index_elem_of {A} (h : list A) (i : Z) (m : A) :
  py_index h i = Some m → m ∈ h.
Proof.
  unfold py_index. intros H.
  repeat (destruct (_ && _) in H); try done;
    by eapply list_elem_of_lookup_2.
Qed.

Lemma add_to_move_history_spec st source target :
  -1 ≤ history_index st →
  move_history (add_to_move_history st source target)
    = take (Z.to_nat (history_index st + 1)) (move_history st) ++ [(source, target)]
  ∧ history_index (add_to_move_history st source target)
    = Z.of_nat (length (move_history (add_to_move_history st source target))) - 1.
Proof.
  intros Hi. unfold add_to_move_history. cbn. split; [|done]. f_equal.
  destruct (history_index st <? Z.of_nat (length (move_history st)) - 1) eqn:Hlt.
  - unfold py_slice_to.
    by assert ((0 <=? history_index st + 1) = true) as -> by (apply Z.leb_le; lia).
  - apply Z.ltb_ge in Hlt. rewrite take_ge; [done|lia].
Qed.

(** Claim C1.  On an open document, for in-range indices
    [source <> target], a reorder that meets no fault, through
    [_move_page] as well as through [ThumbnailWidget.move_page],
    leaves exactly the page sequence obtained by removing the page at
    [source] and reinserting it at [target].  For a forward move the
    pages before [source] and after [target] keep their place, the
    pages in between shift left by one and the moved page lands at
    [target]; symmetrically for a backward move. *)
Theorem reorder_is_remove_reinsert st d text source target :
  current_pdf st = Some d → is_closed d = false →
  0 ≤ source < Z.of_nat (length (pages d)) →
  0 ≤ target < Z.of_nat (length (pages d)) →
  source ≠ target →
  parse_move text = Some (source, target) →
  let s := Z.to_nat source in
  let t := Z.to_nat target in
  let new := remove_reinsert (pages d) s t in
  (∃ st', _move_page st (source + 1) (target + 1) NoFault = Ok st'
          ∧ pages_of st' = new)
  ∧ (∃ st', move_page st text NoFault = Returned Silent st'
            ∧ pages_of st' = new)
  ∧ (source < target → ∀ i : nat,
       ((i < s)%nat → new !! i = pages d !! i)
       ∧ ((s ≤ i < t)%nat → new !! i = pages d !! S i)
       ∧ new !! t = pages d !! s
       ∧ ((t < i)%nat → new !! i = pages d !! i))
  ∧ (target < source → ∀ i : nat,
       ((i < t)%nat → new !! i = pages d !! i)
       ∧ new !! t = pages d !! s
       ∧ ((t < i ≤ s)%nat → new !! i = pages d !! (i - 1)%nat)
       ∧ ((s < i)%nat → new !! i = pages d !! i)).
Proof.
  intros Hd Hc Hs Ht Hne Hp s t new.
  assert (∀ i, new !! i =
    if decide (i < t)%nat then
      if decide (i < s)%nat then pages d !! i else pages d !! S i
    else if decide (i = t) then pages d !! s
    else if decide (i - 1 < s)%nat then pages d !! (i - 1)%nat
         else pages d !! i) as Hlook.
  { intros i. apply remove_reinsert_lookup; lia. }
  split_and!.
  - eexists. split; [by apply _move_page_NoFault|].
    apply build_remove_reinsert; lia.
  - eexists. split; [by eapply move_page_NoFault|].
    apply build_remove_reinsert; lia.
  - intros Hlt i. rewrite (Hlook t), !Hlook. split_and!; [intros ?..| |intros ?];
      repeat case_decide; try done; lia.
  - intros Hlt i. rewrite (Hlook t), !Hlook. split_and!; [intros ?| |intros ?..];
      repeat case_decide; try done; lia.
Qed.

(** *** What a reorder leaves alone *)

Lemma persist_history st d (new_pdf : list Page) f :
  move_history (result_state (persist st d new_pdf f)) = move_history st
  ∧ history_index (result_state (persist st d new_pdf f)) = history_index st.
Proof. unfold persist. by destruct f, (can_save new_pdf). Qed.

Lemma persist_length st d (new_pdf : list Page) f :
  current_pdf st = Some d → length new_pdf = length (pages d) →
  length (pages_of (result_state (persist st d new_pdf f)))
  = length (pages_of st).
Proof.
  intros Hd Hlen. unfold persist, pages_of at 2. rewrite Hd.
  destruct f, (can_save new_pdf); simpl; unfold pages_of; simpl;
    by rewrite ?Hd.
Qed.

Lemma _move_page_history st source target f :
  move_history (result_state (_move_page st source target f)) = move_history st
  ∧ history_index (result_state (_move_page st source target f))
    = history_index st.
Proof.
  unfold _move_page. destruct (current_pdf st) as [d|]; [|done].
  destruct (is_closed d); [done|]. apply persist_history.
Qed.

Lemma _move_page_length st source target f :
  0 ≤ source < Z.of_nat (length (pages_of st)) →
  0 ≤ target < Z.of_nat (length (pages_of st)) →
  length (pages_of (result_state (_move_page st (source + 1) (target + 1) f)))
  = length (pages_of st).
Proof.
  unfold _move_page. intros Hs Ht.
  destruct (current_pdf st) as [d|] eqn:Hd; [|done].
  destruct (is_closed d); [done|].
  unfold pages_of in Hs, Ht. rewrite Hd in Hs, Ht.
  apply persist_length; [done|].
  replace (source + 1 - 1) with source by lia.
  replace (target + 1 - 1) with target by lia.
  by apply build_length.
Qed.

Lemma undo_page_history st f :
  move_history (state_of (undo_page st f)) = move_history st.
Proof.
  unfold undo_page. destruct (truthy (current_pdf st)) as [b|]; [|done].
  destruct (negb b || _); [done|].
  destruct (py_index _ _) as [[source target]|]; [|done].
  pose proof (_move_page_history st (target + 1) (source + 1) f) as [Hh _].
  by destruct (_move_page st (target + 1) (source + 1) f).
Qed.

Lemma redo_page_history st f :
  move_history (state_of (redo_page st f)) = move_history st.
Proof.
  unfold redo_page. destruct (truthy (current_pdf st)) as [b|]; [|done].
  destruct (negb b || _); [done|].
  set (st1 := set_history_index st (history_index st + 1)).
  destruct (py_index _ _) as [[source target]|]; [|done].
  pose proof (_move_page_history st1 (source + 1) (target + 1) f) as [Hh _].
  by destruct (_move_page st1 (source + 1) (target + 1) f).
Qed.

(** Claim C2.  For in-range [source <> target], a reorder followed by
    the reorder with swapped arguments restores the original page
    sequence; and [undo_page] right after a successful [move_page]
    replays exactly that swapped reorder of the recorded move, so the
    pages are again those from before the move. *)
Theorem undo_restores_order st d text source target :
  current_pdf st = Some d → is_closed d = false →
  0 ≤ source < Z.of_nat (length (pages d)) →
  0 ≤ target < Z.of_nat (length (pages d)) →
  source ≠ target →
  parse_move text = Some (source, target) →
  (∃ st1 st2,
      _move_page st (source + 1) (target + 1) NoFault = Ok st1
      ∧ _move_page st1 (target + 1) (source + 1) NoFault = Ok st2
      ∧ pages_of st2 = pages d)
  ∧ (∃ st1 st2,
      move_page st text NoFault = Returned Silent st1
      ∧ active_move st1 = Some (source, target)
      ∧ undo_page st1 NoFault = Returned Silent st2
      ∧ pages_of st2 = pages d).
Proof.
  intros Hd Hc Hs Ht Hne Hp.
  set (new_pdf := _move_page_build (pages d) source target).
  assert (length new_pdf = length (pages d)) as Hlen
    by (by apply build_length).
  assert (new_pdf ≠ []) as Hnew.
  { intros E. rewrite E in Hlen. simpl in Hlen. lia. }
  split.
  - eexists _, _. split; [by apply _move_page_NoFault|].
    split.
    + apply (_move_page_NoFault _ (reopened d new_pdf)); simpl; [done..|lia|lia].
    + simpl. by apply build_inverse.
  - set (st1 := add_to_move_history (set_pdf st (Some (reopened d new_pdf)))
                  source target).
    destruct (add_to_move_history_last
                (set_pdf st (Some (reopened d new_pdf))) source target)
      as (h & Hh & Hidx).
    fold st1 in Hh, Hidx.
    assert ((history_index st1 <? 0) = false) as Hpos
      by (apply Z.ltb_ge; lia).
    exists st1, (set_history_index
                   (set_pdf st1 (Some (reopened (reopened d new_pdf)
                      (_move_page_build new_pdf target source))))
                   (history_index st1 - 1)).
    split_and!.
    + by eapply move_page_NoFault.
    + unfold active_move.
      by rewrite Hpos, Hidx, Hh, Nat2Z.id, lookup_app_r, Nat.sub_diag.
    + unfold undo_page.
      assert (current_pdf st1 = Some (reopened d new_pdf)) as Hd1 by done.
      rewrite Hd1, truthy_open, Hpos by done.
      cbn [negb orb].
      assert (py_index (move_history st1) (history_index st1)
              = Some (source, target)) as ->
        by (rewrite Hh, Hidx; apply py_index_last).
      by rewrite (_move_page_NoFault st1 (reopened d new_pdf))
        by (done || simpl; lia).
    + simpl. by apply build_inverse.
Qed.

(** *** Recorded moves stay within the document *)

Lemma history_in_range_ext st st' :
  move_history st' = move_history st →
  length (pages_of st') = length (pages_of st) →
  history_in_range st → history_in_range st'.
Proof. unfold history_in_range. by intros -> ->. Qed.

Lemma undo_page_length st f :
  history_in_range st →
  length (pages_of (state_of (undo_page st f))) = length (pages_of st).
Proof.
  intros Hr. unfold undo_page.
  destruct (truthy (current_pdf st)) as [b|]; [|done].
  destruct (negb b || _); [done|].
  destruct (py_index _ _) as [[source target]|] eqn:Hrec; [|done].
  apply py_index_elem_of in Hrec.
  unfold history_in_range in Hr. rewrite Forall_forall in Hr.
  destruct (Hr _ Hrec) as [Hs Ht]. simpl in Hs, Ht.
  pose proof (_move_page_length st target source f Ht Hs) as Hlen.
  by destruct (_move_page st (target + 1) (source + 1) f).
Qed.

Lemma redo_page_length st f :
  history_in_range st →
  length (pages_of (state_of (redo_page st f))) = length (pages_of st).
Proof.
  intros Hr. unfold redo_page.
  destruct (truthy (current_pdf st)) as [b|]; [|done].
  destruct (negb b || _); [done|].
  set (st1 := set_history_index st (history_index st + 1)).
  destruct (py_index _ _) as [[source target]|] eqn:Hrec; [|done].
  apply py_index_elem_of in Hrec.
  unfold history_in_range in Hr. rewrite Forall_forall in Hr.
  destruct (Hr _ Hrec) as [Hs Ht]. simpl in Hs, Ht.
  pose proof (_move_page_length st1 source target f Hs Ht) as Hlen.
  by destruct (_move_page st1 (source + 1) (target + 1) f).
Qed.

Lemma py_slice_to_take {A} (l : list A) (k : Z) :
  ∃ n, py_slice_to l k = take n l.
Proof. unfold py_slice_to. destruct (0 <=? k); eauto. Qed.

Lemma add_to_move_history_in_range st source target :
  0 ≤ source < Z.of_nat (length (pages_of st)) →
  0 ≤ target < Z.of_nat (length (pages_of st)) →
  history_in_range st →
  history_in_range (add_to_move_history st source target).
Proof.
  intros Hs Ht Hr. unfold history_in_range, add_to_move_history in *.
  cbn [move_history]. unfold pages_of in *. cbn [current_pdf].
  apply Forall_app. split; [|by apply Forall_singleton].
  destruct (_ <? _); [|done].
  destruct (py_slice_to_take (move_history st) (history_index st + 1)) as [n ->].
  by apply Forall_take.
Qed.

Lemma move_page_in_range st text f :
  history_in_range st → history_in_range (state_of (move_page st text f)).
Proof.
  intros Hr. unfold move_page.
  destruct (current_pdf st) as [d|] eqn:Hd;
    destruct (truthy _) as [[|]|]; try done.
  destruct (parse_move text) as [[source target]|]; [|done].
  destruct (_ || _) eqn:Hvalid; [done|].
  destruct (source =? target); [done|].
  rewrite !orb_false_iff, !Z.geb_leb in Hvalid.
  destruct Hvalid as [[[Hs1%Z.ltb_ge Hs2%Z.leb_gt] Ht1%Z.ltb_ge] Ht2%Z.leb_gt].
  set (new_pdf := move_page_build (pages d) source target).
  assert (length new_pdf = length (pages d)) as Hlen
    by (by apply build_length).
  pose proof (persist_history st d new_pdf f) as [Hh _].
  pose proof (persist_length st d new_pdf f Hd Hlen) as Hl.
  assert (length (pages_of st) = length (pages d)) as Hpd
    by (unfold pages_of; by rewrite Hd).
  destruct (persist st d new_pdf f) as [st'|st']; simpl in *.
  - apply add_to_move_history_in_range; [lia..|].
    by apply (history_in_range_ext st).
  - by apply (history_in_range_ext st).
Qed.

(** Claim C9.  For in-range [source <> target] a reorder keeps the page
    count and yields a permutation of the original pages.  As a
    consequence the recorded moves stay within the document: if every
    record of the history names pages of the current document, this
    is still so after any move, undo or redo, whether it succeeds or
    fails. *)
Theorem reorder_preserves_page_count st d text source target :
  current_pdf st = Some d → is_closed d = false →
  0 ≤ source < Z.of_nat (length (pages d)) →
  0 ≤ target < Z.of_nat (length (pages d)) →
  source ≠ target →
  parse_move text = Some (source, target) →
  history_in_range st →
  (∃ st', _move_page st (source + 1) (target + 1) NoFault = Ok st'
          ∧ length (pages_of st') = length (pages d)
          ∧ pages_of st' ≡ₚ pages d)
  ∧ (∃ st', move_page st text NoFault = Returned Silent st'
            ∧ length (pages_of st') = length (pages d)
            ∧ pages_of st' ≡ₚ pages d
            ∧ history_in_range st')
  ∧ (∀ text' f,
       history_in_range (state_of (move_page st text' f))
       ∧ history_in_range (state_of (undo_page st f))
       ∧ history_in_range (state_of (redo_page st f))).
Proof.
  intros Hd Hc Hs Ht Hne Hp Hr. split_and!.
  - eexists. split; [by apply _move_page_NoFault|]. simpl.
    split; [by apply build_length|by apply build_Permutation].
  - eexists. split; [by eapply move_page_NoFault|]. simpl.
    split_and!; [by apply build_length|by apply build_Permutation|].
    pose proof (move_page_in_range st text NoFault Hr) as Hin.
    by erewrite move_page_NoFault in Hin.
  - intros text' f. split_and!.
    + by apply move_page_in_range.
    + apply (history_in_range_ext st);
        [apply undo_page_history|by apply undo_page_length|done].
    + apply (history_in_range_ext st);
        [apply redo_page_history|by apply redo_page_length|done].
Qed.

(** *** The cursor *)

Lemma history_invariant_alt st :
  history_invariant st
  ↔ -1 ≤ history_index st < Z.of_nat (length (move_history st)).
Proof.
  unfold history_invariant, active_move. split.
  - intros [Hb Hact]. split; [lia|].
    destruct (Z.lt_ge_cases (history_index st)
                (Z.of_nat (length (move_history st)))) as [|Hge]; [done|].
    assert (history_index st = -1); [|lia].
    apply Hact. destruct (history_index st <? 0); [done|].
    apply lookup_ge_None. lia.
  - intros Hb. split; [lia|]. split.
    + intros ->. done.
    + destruct (history_index st <? 0) eqn:Hneg.
      * apply Z.ltb_lt in Hneg. lia.
      * intros Hnone%lookup_ge_None. lia.
Qed.

Lemma py_index_Some_lt {A} (l : list A) (i : Z) (m : A) :
  py_index l i = Some m → i < Z.of_nat (length l).
Proof.
  unfold py_index. intros H.
  destruct (_ && _) eqn:E1 in H; [apply andb_true_iff in E1; lia|].
  destruct (_ && _) eqn:E2 in H; [apply andb_true_iff in E2; lia|done].
Qed.

Lemma undo_page_index st f :
  history_index (state_of (undo_page st f)) = history_index st
  ∨ (history_index (state_of (undo_page st f)) = history_index st - 1
     ∧ 0 ≤ history_index st < Z.of_nat (length (move_history st))).
Proof.
  unfold undo_page. destruct (truthy (current_pdf st)) as [b|]; [|by left].
  destruct (negb b || _) eqn:Hguard; [by left|].
  apply orb_false_iff in Hguard as [_ Hpos%Z.ltb_ge].
  destruct (py_index _ _) as [[source target]|] eqn:Hrec; [|by left].
  apply py_index_Some_lt in Hrec.
  pose proof (_move_page_history st (target + 1) (source + 1) f) as [_ Hi].
  destruct (_move_page st (target + 1) (source + 1) f); simpl in *.
  - right. rewrite Hi. lia.
  - by left.
Qed.

Lemma redo_page_index st f :
  history_index (state_of (redo_page st f)) = history_index st
  ∨ (history_index (state_of (redo_page st f)) = history_index st + 1
     ∧ history_index st < Z.of_nat (length (move_history st)) - 1).
Proof.
  unfold redo_page. destruct (truthy (current_pdf st)) as [b|]; [|by left].
  destruct (negb b || _) eqn:Hguard; [by left|].
  apply orb_false_iff in Hguard as [_ Hlt]. rewrite Z.geb_leb in Hlt.
  apply Z.leb_gt in Hlt.
  set (st1 := set_history_index st (history_index st + 1)).
  right. split; [|lia].
  destruct (py_index _ _) as [[source target]|]; [|done].
  pose proof (_move_page_history st1 (source + 1) (target + 1) f) as [_ Hi].
  by destruct (_move_page st1 (source + 1) (target + 1) f).
Qed.

Lemma add_to_move_history_index st source target :
  history_index (add_to_move_history st source target)
  = Z.of_nat (length (move_history (add_to_move_history st source target))) - 1
  ∧ (0 < length (move_history (add_to_move_history st source target)))%nat.
Proof.
  unfold add_to_move_history. cbn. split; [done|].
  rewrite length_app. simpl. lia.
Qed.

(** A move either leaves the history as it was or is a successful
    reorder followed by [add_to_move_history]. *)
Lemma move_page_cases st text f :
  (move_history (state_of (move_page st text f)) = move_history st
   ∧ history_index (state_of (move_page st text f)) = history_index st)
  ∨ (∃ st' source target,
       f = NoFault ∧ parse_move text = Some (source, target)
       ∧ move_history st' = move_history st
       ∧ history_index st' = history_index st
       ∧ state_of (move_page st text f)
         = add_to_move_history st' source target).
Proof.
  unfold move_page.
  destruct (current_pdf st) as [d|] eqn:Hd;
    destruct (truthy _) as [[|]|]; try by left.
  destruct (parse_move text) as [[source target]|]; [|by left].
  destruct (_ || _); [by left|].
  destruct (source =? target); [by left|].
  set (new_pdf := move_page_build (pages d) source target).
  pose proof (persist_history st d new_pdf f) as [Hh Hi].
  destruct (persist st d new_pdf f) as [st'|st'] eqn:Hper; simpl in *.
  - right. exists st', source, target. split_and!; try done.
    unfold persist in Hper. destruct f; try done;
      by destruct (can_save new_pdf).
  - by left.
Qed.

Lemma close_pdf_history st :
  move_history (state_of (close_pdf st)) = move_history st
  ∧ history_index (state_of (close_pdf st)) = history_index st.
Proof. unfold close_pdf. by destruct (truthy _) as [[|]|]. Qed.

Lemma _load_and_display_pdf_history st fname ld :
  move_history (result_state (_load_and_display_pdf st fname ld))
  = move_history st
  ∧ history_index (result_state (_load_and_display_pdf st fname ld))
    = history_index st.
Proof.
  unfold _load_and_display_pdf.
  destruct (close_pdf_history st) as [Hh Hi].
  destruct ld as [|pgs|pgs [|]]; simpl;
    rewrite ?(proj1 (close_pdf_history _)), ?(proj2 (close_pdf_history _));
    done.
Qed.

(** *** Failing operations *)

Lemma persist_fault st d (new_pdf : list Page) f :
  f ≠ NoFault → ∃ st', persist st d new_pdf f = Raised st'.
Proof.
  intros Hf. unfold persist. destruct f, (can_save new_pdf); simpl; eauto.
  done.
Qed.

(** Property X3.  A move that meets a fault, at whatever step, leaves
    the recorded moves and the cursor untouched. *)
Lemma move_page_fault_keeps_history st text f :
  f ≠ NoFault →
  move_history (state_of (move_page st text f)) = move_history st
  ∧ history_index (state_of (move_page st text f)) = history_index st.
Proof.
  intros Hf.
  by destruct (move_page_cases st text f) as [|(? & ? & ? & ? & _)].
Qed.

(** Property X4.  An undo that meets a fault, at whatever step, leaves
    the recorded moves and the cursor untouched. *)
Lemma undo_page_fault_keeps_history st f :
  f ≠ NoFault →
  move_history (state_of (undo_page st f)) = move_history st
  ∧ history_index (state_of (undo_page st f)) = history_index st.
Proof.
  intros Hf. split; [apply undo_page_history|].
  unfold undo_page. destruct (truthy (current_pdf st)) as [b|]; [|done].
  destruct (negb b || _); [done|].
  destruct (py_index _ _) as [[source target]|]; [|done].
  pose proof (_move_page_history st (target + 1) (source + 1) f) as [_ Hi].
  unfold _move_page in *. destruct (current_pdf st) as [d|]; [|done].
  destruct (is_closed d); [done|].
  destruct (persist_fault st d
              (_move_page_build (pages d) (target + 1 - 1) (source + 1 - 1))
              f Hf) as [st' Hst'].
  by rewrite Hst' in *.
Qed.

(** Claim C5.  The cursor invariant,
    [-1 <= history_index < max (len history) 1] with [history_index = -1]
    exactly when no record is active, holds in the initial state and
    is preserved by [add_to_move_history], by a move, by an undo (which
    leaves the cursor alone when it is negative) and by a redo (which
    leaves it alone when it is at or past the last record), whatever
    fault the environment injects. *)
Theorem history_invariant_preserved :
  history_invariant (@_init_state Page)
  ∧ ∀ st, history_invariant st →
      (∀ source target,
          history_invariant (add_to_move_history st source target))
      ∧ (∀ text f, history_invariant (state_of (move_page st text f)))
      ∧ (∀ f, history_invariant (state_of (undo_page st f))
              ∧ (history_index st < 0 →
                 history_index (state_of (undo_page st f)) = history_index st))
      ∧ (∀ f, history_invariant (state_of (redo_page st f))
              ∧ (Z.of_nat (length (move_history st)) - 1 ≤ history_index st →
                 history_index (state_of (redo_page st f)) = history_index st)).
Proof.
  split.
  - apply history_invariant_alt. simpl. lia.
  - intros st Hinv%history_invariant_alt.
    assert (∀ st' source target,
              history_invariant (add_to_move_history st' source target)) as Hadd.
    { intros st' source target. apply history_invariant_alt.
      destruct (add_to_move_history_index st' source target) as [-> ?]. lia. }
    split_and!.
    + apply Hadd.
    + intros text f.
      destruct (move_page_cases st text f)
        as [[Hh Hi]|(st' & source & target & _ & _ & _ & _ & ->)].
      * apply history_invariant_alt. rewrite Hh, Hi. done.
      * apply Hadd.
    + intros f. pose proof (undo_page_history st f) as Hh.
      destruct (undo_page_index st f) as [Hi|[Hi Hb]].
      * split; [|done]. apply history_invariant_alt. by rewrite Hh, Hi.
      * split; [|lia]. apply history_invariant_alt. rewrite Hh, Hi. lia.
    + intros f. pose proof (redo_page_history st f) as Hh.
      destruct (redo_page_index st f) as [Hi|[Hi Hb]].
      * split; [|done]. apply history_invariant_alt. by rewrite Hh, Hi.
      * split; [|lia]. apply history_invariant_alt. rewrite Hh, Hi. lia.
Qed.

(** Claim C6.  With the cursor at [-1] or above, recording a move drops
    the records strictly after the cursor, appends the new record and
    leaves the cursor on it.  A move through the thumbnail panel that
    names two different pages of the open document and meets no fault
    records its pair in exactly this way; any other move leaves the
    history as it was.  Undo, redo, the raw [_move_page], closing and
    loading never change the records. *)
Theorem add_to_move_history_truncates st source target :
  -1 ≤ history_index st →
  let st' := add_to_move_history st source target in
  let kept := take (Z.to_nat (history_index st + 1)) (move_history st) in
  move_history st' = kept ++ [(source, target)]
  ∧ history_index st' = Z.of_nat (length kept)
  ∧ active_move st' = Some (source, target)
  ∧ (∀ d text s t,
       current_pdf st = Some d → is_closed d = false →
       parse_move text = Some (s, t) →
       0 ≤ s < Z.of_nat (length (pages d)) →
       0 ≤ t < Z.of_nat (length (pages d)) →
       s ≠ t →
       ∃ st1, move_page st text NoFault = Returned Silent st1
              ∧ move_history st1 = kept ++ [(s, t)]
              ∧ history_index st1 = Z.of_nat (length kept)
              ∧ active_move st1 = Some (s, t))
  ∧ (∀ text f,
       (move_history (state_of (move_page st text f)) = move_history st
        ∧ history_index (state_of (move_page st text f)) = history_index st)
       ∨ (∃ s t, f = NoFault ∧ parse_move text = Some (s, t)
                 ∧ move_history (state_of (move_page st text f))
                   = kept ++ [(s, t)]
                 ∧ history_index (state_of (move_page st text f))
                   = Z.of_nat (length kept)))
  ∧ (∀ f, move_history (state_of (undo_page st f)) = move_history st)
  ∧ (∀ f, move_history (state_of (redo_page st f)) = move_history st)
  ∧ (∀ s t f, move_history (result_state (_move_page st s t f))
              = move_history st)
  ∧ move_history (state_of (close_pdf st)) = move_history st
  ∧ (∀ fname ld,
       move_history (result_state (_load_and_display_pdf st fname ld))
       = move_history st).
Proof.
  intros Hi st' kept.
  assert (∀ st0 s t, move_history st0 = move_history st →
            history_index st0 = history_index st →
            move_history (add_to_move_history st0 s t) = kept ++ [(s, t)]
            ∧ history_index (add_to_move_history st0 s t)
              = Z.of_nat (length kept)) as Hadd.
  { intros st0 s t Hh0 Hi0.
    destruct (add_to_move_history_spec st0 s t) as [Hh Hidx]; [lia|].
    rewrite Hidx, Hh, Hh0, Hi0. fold kept. split; [done|].
    rewrite length_app. simpl. lia. }
  assert (∀ st0 s t, move_history st0 = kept ++ [(s, t)] →
            history_index st0 = Z.of_nat (length kept) →
            active_move st0 = Some (s, t)) as Hactive.
  { intros st0 s t Hh0 Hi0. unfold active_move. rewrite Hi0, Hh0.
    assert ((Z.of_nat (length kept) <? 0) = false) as ->
      by (apply Z.ltb_ge; lia).
    by rewrite Nat2Z.id, lookup_app_r, Nat.sub_diag. }
  destruct (Hadd st source target) as [Hh Hidx]; [done..|].
  split_and!.
  - done.
  - done.
  - by apply Hactive.
  - intros d text s t Hd Hc Hp Hs Ht Hne.
    rewrite (move_page_NoFault st d text s t) by done.
    eexists. split; [done|].
    destruct (Hadd (set_pdf st (Some (reopened d
                      (_move_page_build (pages d) s t)))) s t)
      as [Hh1 Hi1]; [done..|].
    split_and!; [done|done|by apply Hactive].
  - intros text f.
    destruct (move_page_cases st text f)
      as [|(st0 & s & t & Hf & Hp & Hh0 & Hi0 & ->)]; [by left|].
    right. exists s, t. destruct (Hadd st0 s t) as [? ?]; done.
  - apply undo_page_history.
  - apply redo_page_history.
  - intros s t f. apply _move_page_history.
  - apply close_pdf_history.
  - intros fname ld. apply _load_and_display_pdf_history.
Qed.

(** Claim C4, amended.  The history is empty with cursor [-1] in the
    initial state only: [close_pdf] and [_load_and_display_pdf] leave
    the records and the cursor as they are.  Across reorders of the
    open document the history persists: a move keeps the records up to
    the cursor, undo and redo keep all of them. *)
Theorem history_survives_close_and_open st :
  move_history (@_init_state Page) = []
  ∧ history_index (@_init_state Page) = -1
  ∧ move_history (state_of (close_pdf st)) = move_history st
  ∧ history_index (state_of (close_pdf st)) = history_index st
  ∧ (∀ fname ld,
       move_history (result_state (_load_and_display_pdf st fname ld))
       = move_history st
       ∧ history_index (result_state (_load_and_display_pdf st fname ld))
         = history_index st)
  ∧ (∀ text f,
       take (Z.to_nat (history_index st + 1)) (move_history st)
       `prefix_of` move_history (state_of (move_page st text f)))
  ∧ (∀ f, move_history (state_of (undo_page st f)) = move_history st)
  ∧ (∀ f, move_history (state_of (redo_page st f)) = move_history st).
Proof.
  split_and!; try done.
  - apply close_pdf_history.
  - apply close_pdf_history.
  - intros fname ld. apply _load_and_display_pdf_history.
  - intros text f.
    destruct (move_page_cases st text f)
      as [[-> _]|(st0 & s & t & _ & _ & Hh0 & Hi0 & ->)].
    { eexists. by rewrite take_drop. }
    unfold add_to_move_history. cbn [move_history]. rewrite Hh0, Hi0.
    destruct (history_index st <? _) eqn:Hlt.
    + unfold py_slice_to. destruct (0 <=? _) eqn:Hpos.
      * by apply prefix_app_r.
      * apply Z.leb_gt in Hpos.
        replace (Z.to_nat (history_index st + 1)) with 0%nat by lia.
        apply prefix_nil.
    + apply prefix_app_r. eexists. by rewrite take_drop.
  - apply undo_page_history.
  - apply redo_page_history.
Qed.

End SessionProps.

(** ** The range parser of [split_pdf] *)

Lemma split_on_contains sep s :
  if contains sep s then (2 ≤ length (split_on sep s))%nat
  else split_on sep s = [s].
Proof.
  induction s as [|c s IH]; [done|]. simpl.
  destruct (Ascii.eqb c sep); simpl.
  - destruct (split_on sep s) eqn:E; simpl.
    + destruct (contains sep s); simpl in IH; [lia|done].
    + lia.
  - destruct (contains sep s).
    + destruct (split_on sep s) as [|w ws]; simpl in *; lia.
    + by rewrite IH.
Qed.

Lemma parse_segment_read_item pgs segment :
  parse_segment pgs segment
  = (fun it => pgs ∪ match it with
                     | Single n => {[ n - 1 ]}
                     | Range start end_ =>
                         list_to_set (py_range (start - 1) end_)
                     end) <$> read_item segment.
Proof.
  unfold parse_segment, read_item.
  pose proof (split_on_contains "-" (strip segment)) as Hc.
  destruct (contains "-" (strip segment)).
  - destruct (split_on "-" (strip segment)) as [|a [|b [|c l]]];
      simpl in *; try lia; try done.
    + by destruct (py_int a), (py_int b).
    + by destruct (py_int a), (py_int b), (py_int c).
  - rewrite Hc. by destruct (py_int (strip segment)).
Qed.

Lemma item_pages_covers it (p : Z) :
  p ∈ (match it with
       | Single n => {[ n - 1 ]}
       | Range start end_ => list_to_set (py_range (start - 1) end_)
       end : gset Z)
  ↔ covers it p.
Proof.
  destruct it as [n|start end_]; simpl.
  - by rewrite elem_of_singleton.
  - unfold py_range. rewrite elem_of_list_to_set, elem_of_seqZ. lia.
Qed.

Lemma fold_segments_None segments : fold_segments None segments = None.
Proof. by induction segments. Qed.

Lemma fold_segments_spec segments (pgs0 : gset Z) :
  match mapM read_item segments with
  | Some items =>
      ∃ pgs, fold_segments (Some pgs0) segments = Some pgs
             ∧ ∀ p, p ∈ pgs ↔ p ∈ pgs0 ∨ ∃ it, it ∈ items ∧ covers it p
  | None => fold_segments (Some pgs0) segments = None
  end.
Proof.
  revert pgs0. induction segments as [|segment segments IH]; intros pgs0.
  - simpl. exists pgs0. split; [done|]. intros p. split; [by left|].
    intros [|(it & Hin & _)]; [done|]. by apply elem_of_nil in Hin.
  - cbn [mapM]. unfold fold_segments in *. cbn [foldl mbind option_bind].
    rewrite parse_segment_read_item.
    destruct (read_item segment) as [it|]; simpl.
    2:{ apply fold_segments_None. }
    specialize (IH (pgs0 ∪ match it with
                     | Single n => {[ n - 1 ]}
                     | Range start end_ =>
                         list_to_set (py_range (start - 1) end_)
                     end)).
    destruct (mapM read_item segments) as [items|]; simpl; [|done].
    destruct IH as (pgs & Hfold & Hpgs). exists pgs. split; [done|].
    intros p. rewrite Hpgs, elem_of_union, item_pages_covers.
    split.
    + intros [[|]|(it' & Hin & Hc)]; [by left|right..].
      * exists it. split; [by left|done].
      * exists it'. split; [by right|done].
    + intros [|(it' & Hin & Hc)]; [by left; left|].
      apply elem_of_cons in Hin as [->|Hin]; [by left; right|].
      right. by exists it'.
Qed.

Lemma StronglySorted_le_lt (l : list Z) :
  NoDup l → StronglySorted Z.le l → StronglySorted Z.lt l.
Proof.
  induction 1 as [|x l Hx Hnd IH]; intros Hs; [constructor|].
  apply StronglySorted_inv in Hs as [Hs Hall]. constructor; [by apply IH|].
  rewrite Forall_forall in *. intros y Hy.
  specialize (Hall y Hy). assert (x ≠ y) by (by intros ->). lia.
Qed.

Lemma sorted_spec (pgs : gset Z) :
  StronglySorted Z.lt (sorted pgs) ∧ ∀ p, p ∈ sorted pgs ↔ p ∈ pgs.
Proof.
  unfold sorted. split.
  - apply StronglySorted_le_lt.
    + rewrite merge_sort_Permutation. apply NoDup_elements.
    + apply StronglySorted_merge_sort; apply _.
  - intros p. by rewrite merge_sort_Permutation, elem_of_elements.
Qed.

Lemma parse_part_spec part :
  match mapM read_item (split_on "," part) with
  | Some items =>
      ∃ group, parse_part part = Some group
               ∧ StronglySorted Z.lt group
               ∧ ∀ p, p ∈ group ↔ ∃ it, it ∈ items ∧ covers it p
  | None => parse_part part = None
  end.
Proof.
  unfold parse_part.
  pose proof (fold_segments_spec (split_on "," part) ∅) as H.
  unfold fold_segments in H.
  destruct (mapM read_item (split_on "," part)) as [items|].
  - destruct H as (pgs & -> & Hpgs). exists (sorted pgs).
    destruct (sorted_spec pgs) as [Hs Hin]. split_and!; [done..|].
    intros p. rewrite Hin, Hpgs. split; [|by right].
    intros [H0|]; [|done]. by apply not_elem_of_empty in H0.
  - by rewrite H.
Qed.

Lemma parse_part_is_Some part :
  Forall (fun segment => is_Some (read_item segment)) (split_on "," part) →
  is_Some (parse_part part).
Proof.
  intros [items Hitems]%(mapM_is_Some read_item).
  pose proof (parse_part_spec part) as Hspec. rewrite Hitems in Hspec.
  destruct Hspec as (group & -> & _). by eexists.
Qed.


Lemma parse_page_groups_fails ranges_text :
  parse_page_groups ranges_text = None ↔ ¬ well_formed ranges_text.
Proof.
  split.
  - intros Hnone Hwf.
    assert (is_Some (parse_page_groups ranges_text)) as [groups Hsome].
    { apply mapM_is_Some. eapply Forall_impl; [exact Hwf|].
      intros part. apply parse_part_is_Some. }
    congruence.
  - intros Hwf. destruct (parse_page_groups ranges_text) as [groups|] eqn:Hp;
      [|done].
    exfalso. apply Hwf. unfold well_formed. apply mapM_Some_1 in Hp.
    clear Hwf. induction Hp as [|part group parts groups Hpart _ IH];
      constructor; [|done].
    pose proof (parse_part_spec part) as Hspec.
    destruct (mapM read_item (split_on "," part)) as [items|] eqn:Hitems;
      [|congruence].
    apply (mapM_is_Some read_item). by exists items.
Qed.

(** Property X7.  Two parts whose items cover the same pages parse to
    the same group, whatever the order and multiplicity of the
    items. *)
Lemma parse_part_order_irrelevant part1 part2 group1 group2 items1 items2 :
  parse_part part1 = Some group1 → parse_part part2 = Some group2 →
  mapM read_item (split_on "," part1) = Some items1 →
  mapM read_item (split_on "," part2) = Some items2 →
  (∀ p, (∃ it, it ∈ items1 ∧ covers it p) ↔ (∃ it, it ∈ items2 ∧ covers it p)) →
  group1 = group2.
Proof.
  intros H1 H2 Hi1 Hi2 Hsame.
  pose proof (parse_part_spec part1) as S1. rewrite Hi1, H1 in S1.
  pose proof (parse_part_spec part2) as S2. rewrite Hi2, H2 in S2.
  destruct S1 as (? & [= <-] & Hs1 & Hin1), S2 as (? & [= <-] & Hs2 & Hin2).
  apply (StronglySorted_unique_strong Z.lt); [intros; lia|done..|].
  apply NoDup_Permutation.
  - clear -Hs1. induction Hs1 as [|x l _ IH Hall]; constructor; [|done].
    intros Hx. rewrite Forall_forall in Hall. specialize (Hall x Hx). lia.
  - clear -Hs2. induction Hs2 as [|x l _ IH Hall]; constructor; [|done].
    intros Hx. rewrite Forall_forall in Hall. specialize (Hall x Hx). lia.
  - intros p. by rewrite Hin1, Hin2.
Qed.

(** *** Descending ranges *)

Lemma descending_range_read segment :
  descending_range segment →
  ∃ a b, read_item segment = Some (Range a b) ∧ a > b.
Proof.
  intros (sa & sb & a & b & Hsplit & Ha & Hb & Hgt).
  exists a, b. unfold read_item. by rewrite Hsplit, Ha, Hb.
Qed.

Lemma descending_range_parse_segment pgs segment :
  descending_range segment → parse_segment pgs segment = Some pgs.
Proof.
  intros (a & b & Hread & Hgt)%descending_range_read.
  rewrite parse_segment_read_item, Hread. simpl. f_equal.
  unfold py_range. rewrite seqZ_nil by lia. simpl.
  by rewrite (right_id_L ∅ (∪)).
Qed.

Lemma sorted_empty : sorted ∅ = [].
Proof. unfold sorted. by rewrite elements_empty. Qed.

Lemma descending_part part :
  Forall descending_range (split_on "," part) → parse_part part = Some [].
Proof.
  intros Hall. unfold parse_part.
  assert (∀ pgs : gset Z,
            foldl (fun acc segment =>
                     acc ≫= fun pgs => parse_segment pgs segment)
                  (Some pgs) (split_on "," part) = Some pgs) as ->.
  { induction Hall as [|segment segments Hseg _ IH]; intros pgs; [done|].
    cbn [foldl mbind option_bind].
    by rewrite descending_range_parse_segment. }
  simpl. by rewrite sorted_empty.
Qed.

Lemma invalid_pages_true n (page_groups : list (list Z)) :
  invalid_pages n page_groups = true
  ↔ ∃ group p, group ∈ page_groups ∧ p ∈ group ∧ ¬ (0 ≤ p < n).
Proof.
  unfold invalid_pages. rewrite existsb_exists. split.
  - intros (p & (group & Hg & Hp)%in_concat & Hbad).
    exists group, p. rewrite !list_elem_of_In. split_and!; [done..|].
    apply orb_true_iff in Hbad as [?%Z.ltb_lt|Hge]; [lia|].
    rewrite Z.geb_leb in Hge. apply Z.leb_le in Hge. lia.
  - intros (group & p & Hg & Hp & Hbad). exists p. split.
    + apply in_concat. exists group. by rewrite <- !list_elem_of_In.
    + apply orb_true_iff. rewrite Z.geb_leb.
      destruct (Z.lt_ge_cases p 0); [left; by apply Z.ltb_lt|].
      right. apply Z.leb_le. lia.
Qed.

Lemma invalid_pages_empty_groups n k :
  invalid_pages n (replicate k []) = false.
Proof. unfold invalid_pages. by induction k. Qed.

(** Claim C10.  A range item [a-b] with [a > b] is accepted and adds no
    page to its group; a text whose groups hold only such items parses
    to empty groups, and these pass the page-index validation for
    every page count. *)
Theorem descending_range_contributes_nothing ranges_text :
  Forall (fun part => Forall descending_range (split_on "," part))
         (split_on ";" ranges_text) →
  (∀ part segment pgs,
      part ∈ split_on ";" ranges_text → segment ∈ split_on "," part →
      parse_segment pgs segment = Some pgs)
  ∧ (∀ part, part ∈ split_on ";" ranges_text → parse_part part = Some [])
  ∧ parse_page_groups ranges_text
    = Some (replicate (length (split_on ";" ranges_text)) [])
  ∧ ∀ n, invalid_pages n
           (replicate (length (split_on ";" ranges_text)) []) = false.
Proof.
  intros Hall. rewrite Forall_forall in Hall. split_and!.
  - intros part segment pgs Hpart Hseg.
    apply descending_range_parse_segment.
    specialize (Hall part Hpart). rewrite Forall_forall in Hall. by apply Hall.
  - intros part Hpart. apply descending_part. by apply Hall.
  - unfold parse_page_groups. apply mapM_Some.
    apply Forall2_replicate_r; [done|]. apply Forall_forall.
    intros part Hpart. apply descending_part. by apply Hall.
  - intros n. apply invalid_pages_empty_groups.
Qed.

Section SplitSession.
Context {Page : Type}.
Implicit Types (st : PDFApp Page) (d : Document Page).

Lemma parse_page_groups_empty : parse_page_groups "" = None.
Proof. reflexivity. Qed.

(** Claim C7.  With a document open and a range text that parses, a
    page index outside [0 .. pageCount-1] in any group makes
    [split_pdf] return with the invalid-pages warning and no file
    written; conversely, whenever a file is written every index of
    every group is in range. *)
Theorem split_all_or_nothing st d text env page_groups :
  current_pdf st = Some d → is_closed d = false → pages d ≠ [] →
  parse_page_groups (strip text) = Some page_groups →
  let n := Z.of_nat (length (pages d)) in
  ((∃ group p, group ∈ page_groups ∧ p ∈ group ∧ ¬ (0 ≤ p < n)) →
   split_pdf st text env = SplitReturned (Warning split_format_warning) [])
  ∧ (files_written (split_pdf st text env) ≠ [] →
     ∀ group p, group ∈ page_groups → p ∈ group → 0 ≤ p < n).
Proof.
  intros Hd Hc Hne Hparse n.
  assert (String.eqb (strip text) "" = false) as Hnonempty.
  { destruct (String.eqb_spec (strip text) "") as [E|]; [|done].
    rewrite E, parse_page_groups_empty in Hparse. done. }
  unfold split_pdf. rewrite Hd, truthy_open, Hnonempty, Hparse by done.
  fold n. split.
  - intros Hbad%invalid_pages_true. by rewrite Hbad.
  - destruct (invalid_pages n page_groups) eqn:Hinv; [done|].
    intros _ group p Hg Hp.
    destruct (decide (0 ≤ p < n)) as [|Hbad]; [done|].
    assert (invalid_pages n page_groups = true); [|congruence].
    apply invalid_pages_true. by exists group, p.
Qed.

End SplitSession.

(** ** Decimal numerals *)

Lemma digit_not_space c d : digit_value c = Some d → is_space c = false.
Proof. destruct c as [[] [] [] [] [] [] [] []]; by vm_compute. Qed.

Lemma digit_not_sign c d :
  digit_value c = Some d → c ≠ "-"%char ∧ c ≠ "+"%char.
Proof. destruct c as [[] [] [] [] [] [] [] []]; by vm_compute. Qed.

Lemma digit_not_int_space c d :
  digit_value c = Some d → is_int_space c = false.
Proof. destruct c as [[] [] [] [] [] [] [] []]; by vm_compute. Qed.

Lemma drop_digits s :
  all_digits s = true →
  drop_trailing is_int_space (drop_leading is_int_space s) = s.
Proof.
  intros Hs.
  assert (drop_leading is_int_space s = s) as ->.
  { destruct s as [|c s]; [done|]. simpl in *.
    destruct (digit_value c) as [d|] eqn:Hd; [|done].
    by rewrite (digit_not_int_space c d). }
  induction s as [|c s IH]; [done|]. simpl in *.
  destruct (digit_value c) as [d|] eqn:Hd; [|done].
  rewrite (IH Hs). destruct s; [|done].
  by rewrite (digit_not_int_space c d).
Qed.

Lemma rstrip_digits s : all_digits s = true → rstrip s = s.
Proof.
  induction s as [|c s IH]; [done|]. simpl.
  destruct (digit_value c) as [d|] eqn:Hd; [|done]. intros Hs.
  rewrite (IH Hs). destruct s; [|done].
  by rewrite (digit_not_space c d).
Qed.

Lemma strip_digits s : all_digits s = true → strip s = s.
Proof.
  intros Hs. unfold strip.
  assert (lstrip s = s) as ->; [|by apply rstrip_digits].
  destruct s as [|c s]; [done|]. simpl in *.
  destruct (digit_value c) as [d|] eqn:Hd; [|done].
  by rewrite (digit_not_space c d).
Qed.

Lemma count_digits_all s :
  all_digits s = true → count_digits s = String.length s.
Proof.
  induction s as [|c s IH]; [done|]. simpl.
  destruct (digit_value c); [|done]. intros Hs. by rewrite IH.
Qed.

Lemma int_digits_all acc prev s :
  all_digits s = true → s ≠ EmptyString ∨ prev = true →
  int_digits acc prev s = Some (decimal acc s).
Proof.
  revert acc prev. induction s as [|c s IH]; intros acc prev Hs Hne.
  - simpl. by destruct Hne as [?| ->].
  - simpl in *. destruct (digit_value c) as [d|]; [|done].
    apply IH; [done|by right].
Qed.

(** [int()] reads a decimal numeral of at most 4300 digits as its value. *)
Lemma py_int_decimal s :
  all_digits s = true → s ≠ EmptyString →
  (String.length s ≤ int_max_str_digits)%nat →
  py_int s = Some (decimal 0 s).
Proof.
  intros Hs Hne Hlen. unfold py_int. rewrite drop_digits by done.
  assert (int_literal s = Some (decimal 0 s)) as Hlit.
  { unfold int_literal. rewrite count_digits_all by done.
    destruct (_ <=? _)%nat eqn:Hle; [|apply Nat.leb_gt in Hle; lia].
    apply int_digits_all; [done|by left]. }
  destruct s as [|c s]; [done|]. simpl in Hs.
  destruct (digit_value c) as [d|] eqn:Hd; [|done].
  destruct (digit_not_sign c d Hd) as [Hm Hp].
  destruct c as [[] [] [] [] [] [] [] []]; done.
Qed.

(** ** The range grammar *)

Section Grammar.
Local Open Scope string_scope.

Lemma contains_app sep a b :
  contains sep (a ++ b) = contains sep a || contains sep b.
Proof.
  induction a as [|c a IH]; [done|]. simpl. rewrite IH.
  by destruct (Ascii.eqb c sep).
Qed.

Lemma contains_digits sep s :
  digit_value sep = None → all_digits s = true → contains sep s = false.
Proof.
  intros Hsep. induction s as [|c s IH]; [done|]. simpl.
  destruct (digit_value c) as [d|] eqn:Hd; [|done]. intros Hs.
  rewrite (IH Hs), orb_false_r. apply Ascii.eqb_neq. by intros ->; congruence.
Qed.

Lemma split_on_app sep a b :
  contains sep a = false →
  split_on sep (a ++ String sep b) = a :: split_on sep b.
Proof.
  induction a as [|c a IH]; simpl.
  - by rewrite Ascii.eqb_refl.
  - intros [Hc Ha]%orb_false_iff. by rewrite Hc, (IH Ha).
Qed.

Lemma split_on_absent sep s : contains sep s = false → split_on sep s = [s].
Proof.
  intros Hs. pose proof (split_on_contains sep s) as H. by rewrite Hs in H.
Qed.

Lemma split_on_join sep (l : list string) :
  l ≠ [] → Forall (fun s => contains sep s = false) l →
  split_on sep (join sep l) = l.
Proof.
  intros Hne Hall. induction Hall as [|s l Hs Hall IH]; [done|].
  destruct l as [|s' l]; [by apply split_on_absent|].
  change (join sep (s :: s' :: l)) with (s ++ String sep (join sep (s' :: l))).
  by rewrite split_on_app, IH.
Qed.

Lemma lstrip_digits s b : all_digits s = true → s ≠ "" → lstrip (s ++ b) = s ++ b.
Proof.
  destruct s as [|c s]; [done|]. simpl.
  destruct (digit_value c) as [d|] eqn:Hd; [|done]. intros _ _.
  by rewrite (digit_not_space c d).
Qed.

Lemma rstrip_app a b : rstrip b ≠ "" → rstrip (a ++ b) = a ++ rstrip b.
Proof.
  intros Hb. induction a as [|c a IH]; [done|].
  change (String c a ++ b) with (String c (a ++ b)).
  change (String c a ++ rstrip b) with (String c (a ++ rstrip b)).
  simpl. rewrite IH.
  destruct (a ++ rstrip b) eqn:E; [|done].
  destruct a; [change (rstrip b = "") in E; congruence|discriminate E].
Qed.

Lemma strip_range a b :
  numeral a → numeral b → strip (a ++ String "-" b) = a ++ String "-" b.
Proof.
  intros (Ha & Hane & _) (Hb & Hbne & _). unfold strip.
  rewrite lstrip_digits by done.
  assert (rstrip (String "-" b) = String "-" b) as Hr.
  { simpl. rewrite rstrip_digits by done. by destruct b. }
  by rewrite rstrip_app; rewrite Hr.
Qed.

Lemma read_item_print it :
  valid_item it → read_item (print_item it) = Some (item_of it).
Proof.
  destruct it as [n|a b]; simpl.
  - intros (Hn & Hne & Hlen). unfold read_item.
    rewrite strip_digits, split_on_absent by (done || by apply contains_digits).
    by rewrite py_int_decimal.
  - intros [Ha Hb]. unfold read_item. rewrite strip_range by done.
    destruct Ha as (Ha & Hane & Halen), Hb as (Hb & Hbne & Hblen).
    rewrite split_on_app, split_on_absent by (by apply contains_digits).
    by rewrite !py_int_decimal.
Qed.

Lemma contains_print_item sep it :
  digit_value sep = None → sep ≠ "-"%char → valid_item it →
  contains sep (print_item it) = false.
Proof.
  intros Hsep Hne. destruct it as [n|a b]; simpl.
  - intros (Hn & _). by apply contains_digits.
  - intros [(Ha & _) (Hb & _)]. rewrite contains_app.
    change (contains sep (String "-" b))
      with (Ascii.eqb "-" sep || contains sep b).
    rewrite !contains_digits by done.
    assert (Ascii.eqb "-" sep = false) as ->; [|done].
    apply Ascii.eqb_neq. congruence.
Qed.

Lemma contains_join sep sep' (l : list string) :
  sep' ≠ sep → Forall (fun s => contains sep s = false) l →
  contains sep (join sep' l) = false.
Proof.
  intros Hne Hall. induction Hall as [|s l Hs Hall IH]; [done|].
  destruct l as [|s' l]; [done|].
  change (join sep' (s :: s' :: l)) with (s ++ String sep' (join sep' (s' :: l))).
  rewrite contains_app, Hs.
  change (contains sep (String sep' (join sep' (s' :: l))))
    with (Ascii.eqb sep' sep || contains sep (join sep' (s' :: l))).
  rewrite IH. assert (Ascii.eqb sep' sep = false) as ->; [|done].
  by apply Ascii.eqb_neq.
Qed.

Lemma parse_parts_of_items (parts : list string) (gs : list (list item_syntax)) :
  Forall2 (fun part g =>
             mapM read_item (split_on "," part) = Some (item_of <$> g))
          parts gs →
  ∃ page_groups,
    mapM parse_part parts = Some page_groups
    ∧ Forall2 (fun g group =>
         StronglySorted Z.lt group
         ∧ ∀ p, p ∈ group ↔ ∃ it, it ∈ g ∧ covers (item_of it) p)
        gs page_groups.
Proof.
  induction 1 as [|part g parts gs Hpart _ (groups & Hgroups & Hall)].
  - by exists [].
  - pose proof (parse_part_spec part) as Hspec. rewrite Hpart in Hspec.
    destruct Hspec as (group & Hgroup & Hsorted & Hin).
    exists (group :: groups). split.
    + cbn [mapM]. by rewrite Hgroup, Hgroups.
    + constructor; [|done]. split; [done|]. intros p. rewrite Hin. split.
      * intros (it & (it0 & -> & Hit0)%list_elem_of_fmap & Hc). by exists it0.
      * intros (it0 & Hit0 & Hc). exists (item_of it0). split; [|done].
        apply list_elem_of_fmap. by exists it0.
Qed.

(** Property X6.  Every text of the range grammar, with non-empty
    groups of items whose numbers are decimal numerals of at most 4300
    digits, is well formed, and each of its items reads as the numbers
    written; the parser of [split_pdf] accepts it and returns, for
    each group of the grammar, the strictly ascending list of the
    pages its items cover. *)
Lemma print_groups_well_formed (gs : list (list item_syntax)) :
  gs ≠ [] → Forall (fun g => g ≠ [] ∧ Forall valid_item g) gs →
  well_formed (print_groups gs)
  ∧ Forall2 (fun part g =>
       mapM read_item (split_on "," part) = Some (item_of <$> g))
      (split_on ";" (print_groups gs)) gs
  ∧ ∃ page_groups,
      parse_page_groups (print_groups gs) = Some page_groups
      ∧ Forall2 (fun g group =>
           StronglySorted Z.lt group
           ∧ ∀ p, p ∈ group ↔ ∃ it, it ∈ g ∧ covers (item_of it) p)
          gs page_groups.
Proof.
  intros Hne Hall.
  cut (well_formed (print_groups gs)
       ∧ Forall2 (fun part g =>
            mapM read_item (split_on "," part) = Some (item_of <$> g))
           (split_on ";" (print_groups gs)) gs).
  { intros [Hwf Hparts]. split_and!; [done..|].
    by apply parse_parts_of_items. }
  unfold well_formed, print_groups.
  rewrite split_on_join.
  2:{ by destruct gs. }
  2:{ apply Forall_fmap. eapply Forall_impl; [exact Hall|].
      intros g [_ Hg]. simpl. apply contains_join; [done|].
      apply Forall_fmap. eapply Forall_impl; [exact Hg|].
      intros it Hit. by apply contains_print_item. }
  assert (∀ g, g ≠ [] → Forall valid_item g →
            mapM read_item (split_on "," (print_group g)) = Some (item_of <$> g))
    as Hgroup.
  { intros g Hg Hv. unfold print_group. rewrite split_on_join.
    - apply mapM_Some. apply Forall2_fmap. apply Forall_Forall2_diag.
      eapply Forall_impl; [exact Hv|]. intros it Hit. simpl.
      by apply read_item_print.
    - by destruct g.
    - apply Forall_fmap. eapply Forall_impl; [exact Hv|].
      intros it Hit. by apply contains_print_item. }
  split.
  - apply Forall_fmap. eapply Forall_impl; [exact Hall|].
    intros g [Hg Hv]. simpl. apply (mapM_is_Some read_item).
    rewrite Hgroup by done. by eexists.
  - apply Forall2_fmap_l. apply Forall_Forall2_diag.
    eapply Forall_impl; [exact Hall|]. intros g [Hg Hv]. by apply Hgroup.
Qed.

End Grammar.

(** ** Evaluations on concrete sessions *)

(** Claim C3, at the failing input.  With one move recorded and undone,
    a redo whose save fails reports the error but leaves the cursor
    advanced from [-1] to [0]. *)
Lemma redo_page_failure_advances_cursor :
  redo_page st_undone FaultSave
  = Returned (Critical "Error redoing page move: ")
      (set_history_index st_undone 0)
  ∧ history_index (state_of (redo_page st_undone FaultSave))
    ≠ history_index st_undone.
Proof. split; [reflexivity|discriminate]. Qed.

(** Claim C4 as stated fails: with one move recorded, neither closing
    the document nor loading another one empties the history or
    resets the cursor. *)
Lemma close_pdf_keeps_history :
  ¬ (move_history (state_of (close_pdf st_moved)) = []
     ∧ history_index (state_of (close_pdf st_moved)) = -1)
  ∧ ¬ (move_history (result_state
         (_load_and_display_pdf st_moved "b.pdf" (OpensPdf [7; 8; 9]%nat true))) = []
       ∧ history_index (result_state
           (_load_and_display_pdf st_moved "b.pdf" (OpensPdf [7; 8; 9]%nat true))) = -1).
Proof. split; intros [H _]; discriminate H. Qed.

(** After that failed redo an undo applies the inverse of a move that
    was never replayed, and the pages end up swapped. *)
Example undo_after_failed_redo :
  pages_of (state_of (undo_page
              (state_of (redo_page st_undone FaultSave)) NoFault))
  = [11; 10]%nat.
Proof. reflexivity. Qed.

(** A history kept across a load may name pages the new document does
    not have. *)
Example stale_history_out_of_range :
  ¬ history_in_range
      (result_state (_load_and_display_pdf st_branch "single.pdf"
                       (OpensPdf [10]%nat true))).
Proof.
  unfold history_in_range. simpl. intros H.
  apply Forall_cons_1 in H as [[_ H] _]. simpl in H. lia.
Qed.

(** The move of the test suite: ["1,2"] swaps the first two pages. *)
Example move_first_two :
  pages_of (state_of (move_page st_three "1,2" NoFault)) = [11; 10; 12]%nat.
Proof. reflexivity. Qed.

(** Redo after undo gives the order the move had produced. *)
Example redo_after_undo :
  pages_of (state_of (redo_page
     (state_of (undo_page (state_of (move_page st_three "1,3" NoFault))
                          NoFault)) NoFault))
  = pages_of (state_of (move_page st_three "1,3" NoFault)).
Proof. reflexivity. Qed.

(** ["1,2"] on a one-page document is rejected and nothing is written. *)
Example split_rejects_page_two env :
  split_pdf st_one "1,2" env = SplitReturned (Warning split_format_warning) [].
Proof. reflexivity. Qed.

(** ["1-2;3"] on three pages gives two parts. *)
Example split_two_parts :
  split_pdf st_three "1-2;3" env_ok
  = SplitReturned (Information "PDF split successfully into 2 parts!")
      [(1, [10; 11]%nat); (2, [12]%nat)].
Proof. reflexivity. Qed.

(** Items in any order, with repetitions, give the ascending group. *)
Example parse_unordered :
  parse_page_groups "4,1,3-5, 2 ,1;2-2" = Some [[0; 1; 2; 3; 4]; [1]].
Proof. reflexivity. Qed.

(** The separator U+001F is dropped by [str.strip()] but not skipped
    by [int()]: before a number inside a field it makes the text
    invalid, at the edge of a segment it is harmless.  The no-break
    space U+00A0 is skipped by both. *)
Example separators_and_numbers :
  py_int (String "031" "2") = None
  ∧ strip (String "031" "2") = "2"%string
  ∧ py_int (String "160" "2") = Some 2
  ∧ parse_move (String "1" (String "," (String "031" "1"))) = None
  ∧ parse_move (String "031" "1,2") = Some (0, 1)
  ∧ parse_page_groups (String "1" (String "-" (String "031" "2"))) = None
  ∧ parse_page_groups (String "031" "1-2") = Some [[0; 1]]
  ∧ go_to_page st_three (String "031" "2") true
    = Returned (Warning "Please enter a valid page number") st_three.
Proof. by vm_compute. Qed.

(** A group holding only a descending range passes validation; the
    split then stops at the save of its empty document. *)
Example split_descending_only :
  split_pdf st_three "1;5-2;3" env_ok
  = SplitReturned (Critical "Error splitting PDF: ") [(1, [10]%nat)].
Proof. reflexivity. Qed.

(** ** Instances of the conditional statements *)

Lemma reorder_is_remove_reinsert_witness :
  current_pdf st_three = Some three_pages
  ∧ is_closed three_pages = false
  ∧ parse_move "1,3" = Some (0, 2)
  ∧ (∃ st', _move_page st_three 1 3 NoFault = Ok st'
            ∧ pages_of st' = [11; 12; 10]%nat)
  ∧ (∃ st', move_page st_three "1,3" NoFault = Returned Silent st'
            ∧ pages_of st' = [11; 12; 10]%nat).
Proof.
  pose proof (reorder_is_remove_reinsert st_three three_pages "1,3" 0 2
                eq_refl eq_refl) as H.
  destruct H as (H1 & H2 & _); [simpl; lia|simpl; lia|lia|reflexivity|].
  split_and!; [reflexivity|reflexivity|reflexivity|exact H1|exact H2].
Defined.

Lemma undo_restores_order_witness :
  current_pdf st_three = Some three_pages
  ∧ parse_move "1,3" = Some (0, 2)
  ∧ ∃ st1 st2,
      move_page st_three "1,3" NoFault = Returned Silent st1
      ∧ active_move st1 = Some (0, 2)
      ∧ undo_page st1 NoFault = Returned Silent st2
      ∧ pages_of st2 = [10; 11; 12]%nat.
Proof.
  pose proof (undo_restores_order st_three three_pages "1,3" 0 2
                eq_refl eq_refl) as H.
  destruct H as (_ & H2); [simpl; lia|simpl; lia|lia|reflexivity|].
  split_and!; [reflexivity|reflexivity|exact H2].
Defined.

Lemma reorder_preserves_page_count_witness :
  current_pdf st_moved = Some two_pages
  ∧ parse_move "2,1" = Some (1, 0)
  ∧ history_in_range st_moved
  ∧ ∃ st', move_page st_moved "2,1" NoFault = Returned Silent st'
           ∧ length (pages_of st') = 2%nat
           ∧ pages_of st' ≡ₚ [10; 11]%nat
           ∧ history_in_range st'.
Proof.
  assert (history_in_range st_moved) as Hr.
  { unfold history_in_range. simpl. repeat constructor; simpl; lia. }
  pose proof (reorder_preserves_page_count st_moved two_pages "2,1" 1 0
                eq_refl eq_refl) as H.
  destruct H as (_ & H2 & _);
    [simpl; lia|simpl; lia|lia|reflexivity|exact Hr|].
  split_and!; [reflexivity|reflexivity|exact Hr|exact H2].
Defined.

Lemma history_invariant_preserved_witness :
  history_invariant st_moved
  ∧ history_invariant (state_of (undo_page st_moved NoFault))
  ∧ history_invariant (state_of (redo_page st_undone FaultSave)).
Proof.
  assert (history_invariant st_moved) as H1.
  { unfold history_invariant, active_move. simpl.
    split; [lia|]. split; [lia|discriminate]. }
  assert (history_invariant st_undone) as H2.
  { unfold history_invariant, active_move. simpl.
    split; [lia|]. split; reflexivity. }
  destruct (@history_invariant_preserved nat) as [_ H].
  split; [exact H1|]. split.
  - exact (proj1 (proj1 (proj2 (proj2 (H st_moved H1))) NoFault)).
  - exact (proj1 (proj2 (proj2 (proj2 (H st_undone H2))) FaultSave)).
Defined.

Lemma add_to_move_history_truncates_witness :
  -1 ≤ history_index st_branch
  ∧ move_history (add_to_move_history st_branch 2 0) = [(0, 1); (2, 0)]
  ∧ history_index (add_to_move_history st_branch 2 0) = 1
  ∧ active_move (add_to_move_history st_branch 2 0) = Some (2, 0)
  ∧ ∃ st1, move_page st_branch "3,1" NoFault = Returned Silent st1
           ∧ move_history st1 = [(0, 1); (2, 0)]
           ∧ history_index st1 = 1
           ∧ active_move st1 = Some (2, 0).
Proof.
  assert (-1 ≤ history_index st_branch) as Hi by (simpl; lia).
  destruct (add_to_move_history_truncates st_branch 2 0 Hi)
    as (H1 & H2 & H3 & H4 & _).
  split_and!; [exact Hi|exact H1|exact H2|exact H3|].
  apply (H4 three_pages "3,1"%string 2 0);
    [reflexivity|reflexivity|reflexivity|simpl; lia|simpl; lia|lia].
Defined.

Lemma split_all_or_nothing_witness :
  current_pdf st_one = Some one_page
  ∧ parse_page_groups (strip "1,2") = Some [[0; 1]]
  ∧ split_pdf st_one "1,2" env_ok
    = SplitReturned (Warning split_format_warning) [].
Proof.
  assert (parse_page_groups (strip "1,2") = Some [[0; 1]]) as Hp
    by (vm_compute; reflexivity).
  assert (pages one_page ≠ []) as Hne by discriminate.
  destruct (split_all_or_nothing st_one one_page "1,2" env_ok [[0; 1]]
              eq_refl eq_refl Hne Hp) as [H _].
  split_and!; [reflexivity|exact Hp|].
  apply H. exists [0; 1], 1. split_and!.
  - apply list_elem_of_here.
  - apply list_elem_of_further, list_elem_of_here.
  - simpl. lia.
Defined.


Lemma descending_range_contributes_nothing_witness :
  Forall (fun part => Forall descending_range (split_on "," part))
         (split_on ";" "5-2,9-1;3-1")
  ∧ parse_page_groups "5-2,9-1;3-1" = Some [[]; []]
  ∧ ∀ n, invalid_pages n [[]; []] = false.
Proof.
  assert (Forall (fun part => Forall descending_range (split_on "," part))
                 (split_on ";" "5-2,9-1;3-1")) as Hall.
  { simpl. repeat (constructor; simpl).
    - exists "5"%string, "2"%string, 5, 2.
      split_and!; [reflexivity..|lia].
    - exists "9"%string, "1"%string, 9, 1.
      split_and!; [reflexivity..|lia].
    - exists "3"%string, "1"%string, 3, 1.
      split_and!; [reflexivity..|lia]. }
  destruct (descending_range_contributes_nothing "5-2,9-1;3-1" Hall)
    as (_ & _ & H3 & H4).
  split_and!; [exact Hall|exact H3|exact H4].
Defined.

(** * Further properties *)

(** ** Undo and redo *)

Section UndoRedo.
Context {Page : Type}.
Implicit Types (st : PDFApp Page) (d : Document Page).

Lemma py_index_lookup {A} (l : list A) (i : Z) (m : A) :
  0 ≤ i → l !! Z.to_nat i = Some m → py_index l i = Some m.
Proof.
  intros Hi Hm. unfold py_index.
  pose proof (lookup_lt_Some _ _ _ Hm) as Hlt.
  assert ((0 <=? i) && (i <? Z.of_nat (length l)) = true) as ->; [|done].
  apply andb_true_intro. split; [apply Z.leb_le|apply Z.ltb_lt]; lia.
Qed.

Lemma active_move_Some st m :
  active_move st = Some m →
  0 ≤ history_index st < Z.of_nat (length (move_history st))
  ∧ py_index (move_history st) (history_index st) = Some m.
Proof.
  unfold active_move. destruct (history_index st <? 0) eqn:Hneg; [done|].
  apply Z.ltb_ge in Hneg. intros Hm.
  pose proof (lookup_lt_Some _ _ _ Hm). split; [lia|].
  by apply py_index_lookup.
Qed.

Lemma reopened_same d : is_closed d = false → reopened d (pages d) = d.
Proof. destruct d. simpl. by intros ->. Qed.

Lemma build_nonempty (cur : list Page) source target :
  0 ≤ source < Z.of_nat (length cur) →
  0 ≤ target < Z.of_nat (length cur) →
  _move_page_build cur source target ≠ [].
Proof.
  intros Hs Ht E. pose proof (build_length cur source target Hs Ht) as Hlen.
  rewrite E in Hlen. simpl in Hlen. lia.
Qed.

(** Property X1.  On an open document whose active record names pages
    of the document, an undo that meets no fault steps the cursor back
    by one, and a redo right after it brings back the very same
    session: pages, history and cursor. *)
Theorem redo_after_undo_restores st d source target :
  current_pdf st = Some d → is_closed d = false →
  active_move st = Some (source, target) →
  0 ≤ source < Z.of_nat (length (pages d)) →
  0 ≤ target < Z.of_nat (length (pages d)) →
  ∃ st1, undo_page st NoFault = Returned Silent st1
         ∧ history_index st1 = history_index st - 1
         ∧ redo_page st1 NoFault = Returned Silent st.
Proof.
  intros Hd Hc Hact Hs Ht.
  destruct (active_move_Some st _ Hact) as [Hidx Hrec].
  set (b := _move_page_build (pages d) target source).
  assert (length b = length (pages d)) as Hlen by (by apply build_length).
  assert (b ≠ []) as Hb by (by apply build_nonempty).
  assert (pages d ≠ []) as Hne by (intros E; rewrite E in Hs; simpl in Hs; lia).
  set (st1 := set_history_index (set_pdf st (Some (reopened d b)))
                (history_index st - 1)).
  exists st1. split_and!; [|done|].
  - unfold undo_page. rewrite Hd, truthy_open by done.
    assert ((history_index st <? 0) = false) as -> by (apply Z.ltb_ge; lia).
    cbn [negb orb]. rewrite Hrec.
    by rewrite (_move_page_NoFault st d) by done.
  - unfold redo_page.
    assert (current_pdf st1 = Some (reopened d b)) as Hd1 by done.
    rewrite Hd1, truthy_open by done. cbn [negb orb].
    assert ((history_index st1 >=? Z.of_nat (length (move_history st1)) - 1)
            = false) as ->.
    { rewrite Z.geb_leb. apply Z.leb_gt. simpl. lia. }
    set (st2 := set_history_index st1 (history_index st1 + 1)).
    assert (history_index st2 = history_index st) as Hi2 by (simpl; lia).
    assert (move_history st2 = move_history st) as Hh2 by done.
    rewrite Hh2, Hi2, Hrec.
    rewrite (_move_page_NoFault st2 (reopened d b)); [|done|done|simpl; lia..].
    f_equal. simpl. unfold b. rewrite (build_inverse (pages d) target source) by done.
    unfold set_pdf, reopened. simpl.
    destruct st as [pdf pg h i], d as [nm pgs cl]. simpl in *.
    subst. f_equal. lia.
Qed.

(** Property X2.  On an open document with a record after the cursor
    that names pages of the document, a redo that meets no fault
    advances the cursor by one, and an undo right after it brings back
    the very same session. *)
Theorem undo_after_redo_restores st d source target :
  current_pdf st = Some d → is_closed d = false →
  -1 ≤ history_index st →
  move_history st !! Z.to_nat (history_index st + 1) = Some (source, target) →
  0 ≤ source < Z.of_nat (length (pages d)) →
  0 ≤ target < Z.of_nat (length (pages d)) →
  ∃ st1, redo_page st NoFault = Returned Silent st1
         ∧ history_index st1 = history_index st + 1
         ∧ undo_page st1 NoFault = Returned Silent st.
Proof.
  intros Hd Hc Hidx Hm Hs Ht.
  pose proof (lookup_lt_Some _ _ _ Hm) as Hlt.
  pose proof (py_index_lookup _ (history_index st + 1) _ ltac:(lia) Hm) as Hrec.
  set (b := _move_page_build (pages d) source target).
  assert (length b = length (pages d)) as Hlen by (by apply build_length).
  assert (b ≠ []) as Hb by (by apply build_nonempty).
  assert (pages d ≠ []) as Hne by (intros E; rewrite E in Hs; simpl in Hs; lia).
  set (st0 := set_history_index st (history_index st + 1)).
  set (st1 := set_pdf st0 (Some (reopened d b))).
  exists st1. split_and!; [|done|].
  - unfold redo_page. rewrite Hd, truthy_open by done. cbn [negb orb].
    assert ((history_index st >=? Z.of_nat (length (move_history st)) - 1)
            = false) as ->.
    { rewrite Z.geb_leb. apply Z.leb_gt. lia. }
    fold st0. change (move_history st0) with (move_history st).
    change (history_index st0) with (history_index st + 1). rewrite Hrec.
    by rewrite (_move_page_NoFault st0 d) by done.
  - unfold undo_page.
    assert (current_pdf st1 = Some (reopened d b)) as Hd1 by done.
    rewrite Hd1, truthy_open by done.
    change (history_index st1) with (history_index st + 1).
    change (move_history st1) with (move_history st).
    assert ((history_index st + 1 <? 0) = false) as -> by (apply Z.ltb_ge; lia).
    cbn [negb orb]. rewrite Hrec.
    rewrite (_move_page_NoFault st1 (reopened d b)); [|done|done|simpl; lia..].
    f_equal. simpl. unfold b. rewrite (build_inverse (pages d) source target) by done.
    unfold set_history_index, set_pdf, reopened. simpl.
    destruct st as [pdf pg h i], d as [nm pgs cl]. simpl in *.
    subst. f_equal. lia.
Qed.

End UndoRedo.

(** ** What a split writes *)

Section SplitWrite.
Context {Page : Type}.
Implicit Types (st : PDFApp Page) (d : Document Page) (cur : list Page).

Lemma split_on_nonempty sep s : split_on sep s ≠ [].
Proof.
  destruct s as [|c s]; [done|]. simpl.
  destruct (Ascii.eqb c sep); [done|]. by destruct (split_on sep s).
Qed.

Lemma invalid_pages_false n (page_groups : list (list Z)) :
  invalid_pages n page_groups = false →
  Forall (Forall (fun p => 0 ≤ p < n)) page_groups.
Proof.
  intros Hinv. apply Forall_forall. intros group Hg.
  apply Forall_forall. intros p Hp.
  destruct (decide (0 ≤ p < n)) as [|Hbad]; [done|].
  assert (invalid_pages n page_groups = true); [|congruence].
  apply invalid_pages_true. by exists group, p.
Qed.

Lemma build_group cur (group : list Z) out :
  Forall (fun p => 0 ≤ p < Z.of_nat (length cur)) group →
  foldl (fun out p => insert_pdf out cur p p) out group
  = out ++ select_pages cur group.
Proof.
  intros Hall. revert out.
  induction Hall as [|p group Hp _ IH]; intros out.
  - by rewrite app_nil_r.
  - cbn [foldl]. rewrite IH. unfold select_pages. cbn [omap list_omap].
    destruct (lookup_lt_is_Some_2 cur (Z.to_nat p)) as [x Hx]; [lia|].
    fold (@omap list _ _ _ (fun p => cur !! Z.to_nat p) group).
    rewrite Hx. rewrite <- (Z2Nat.id p) at 1 2 by lia.
    rewrite (insert_pdf_single _ _ _ x Hx). by rewrite <- app_assoc.
Qed.

Lemma write_parts_prefix cur env (i : nat) (page_groups : list (list Z)) :
  Forall (Forall (fun p => 0 ≤ p < Z.of_nat (length cur))) page_groups →
  (write_parts cur env i page_groups).1
  `prefix_of` imap (fun j group =>
                      (Z.of_nat (i + j) + 1, select_pages cur group))
                   page_groups.
Proof.
  intros Hall. revert i.
  induction Hall as [|group groups Hg _ IH]; intros i; [done|].
  cbn [write_parts]. rewrite (build_group cur group []) by done.
  rewrite imap_cons, Nat.add_0_r. cbn [app].
  destruct (can_save _ && save_ok env i); [|apply prefix_nil].
  specialize (IH (S i)).
  destruct (write_parts cur env (S i) groups) as [files ok]. cbn [fst] in *.
  apply prefix_cons.
  erewrite imap_ext; [exact IH|]. intros j g _. simpl. do 2 f_equal. lia.
Qed.

Lemma write_parts_all cur env (i : nat) (page_groups : list (list Z)) :
  Forall (Forall (fun p => 0 ≤ p < Z.of_nat (length cur))) page_groups →
  Forall (fun group => group ≠ []) page_groups →
  (∀ j, save_ok env j = true) →
  write_parts cur env i page_groups
  = (imap (fun j group => (Z.of_nat (i + j) + 1, select_pages cur group))
          page_groups, true).
Proof.
  intros Hall Hne Hsave. revert i.
  induction Hall as [|group groups Hg _ IH]; intros i; [done|].
  apply Forall_cons_1 in Hne as [Hgne Hne].
  cbn [write_parts]. rewrite (build_group cur group []) by done.
  cbn [app]. rewrite Hsave, andb_true_r.
  assert (can_save (select_pages cur group) = true) as ->.
  { destruct group as [|p group]; [done|].
    apply Forall_cons_1 in Hg as [Hp _]. unfold select_pages. cbn.
    destruct (lookup_lt_is_Some_2 cur (Z.to_nat p)) as [x ->]; [lia|]. done. }
  rewrite (IH Hne (S i)), imap_cons, Nat.add_0_r. do 2 f_equal.
  apply imap_ext. intros j g _. simpl. do 2 f_equal. lia.
Qed.

(** Property X8.  Whatever the environment does, the files a split
    has written are an initial run of the expected parts: part [i+1]
    holds the pages of the [i]-th group in ascending order, and no
    part is written before its predecessors. *)
Theorem split_writes_prefix_of_parts st d text env page_groups :
  current_pdf st = Some d →
  parse_page_groups (strip text) = Some page_groups →
  files_written (split_pdf st text env)
  `prefix_of` expected_parts (pages d) page_groups.
Proof.
  intros Hd Hparse. unfold split_pdf. rewrite Hd.
  destruct (truthy (Some d)) as [[|]|]; try apply prefix_nil.
  destruct (String.eqb (strip text) ""); [apply prefix_nil|].
  rewrite Hparse.
  destruct (invalid_pages _ page_groups) eqn:Hinv; [apply prefix_nil|].
  destruct (String.eqb (output_dir env) ""); [apply prefix_nil|].
  destruct (negb (makedirs_ok env)); [apply prefix_nil|].
  pose proof (write_parts_prefix (pages d) env 0 page_groups
                (invalid_pages_false _ _ Hinv)) as Hpre.
  destruct (write_parts (pages d) env 0 page_groups) as [files [|]];
    exact Hpre.
Qed.

(** Property X9.  With a document open, a text that parses to
    non-empty groups of in-range pages, a directory chosen and every
    write succeeding, the split reports success and writes one part
    per group, numbered from 1 in the order of the groups, each with
    as many pages as its group has indices. *)
Theorem split_writes_all_parts st d text env page_groups :
  current_pdf st = Some d → is_closed d = false →
  parse_page_groups (strip text) = Some page_groups →
  invalid_pages (Z.of_nat (length (pages d))) page_groups = false →
  Forall (fun group => group ≠ []) page_groups →
  output_dir env ≠ EmptyString → makedirs_ok env = true →
  (∀ j, save_ok env j = true) →
  split_pdf st text env
  = SplitReturned
      (Information ("PDF split successfully into "
                    ++ py_str (Z.of_nat (length page_groups))
                    ++ " parts!")%string)
      (expected_parts (pages d) page_groups)
  ∧ length (expected_parts (pages d) page_groups) = length page_groups
  ∧ ∀ (i : nat) group, page_groups !! i = Some group →
      expected_parts (pages d) page_groups !! i
      = Some (Z.of_nat i + 1, select_pages (pages d) group)
      ∧ length (select_pages (pages d) group) = length group.
Proof.
  intros Hd Hc Hparse Hinv Hne Hdir Hmk Hsave.
  pose proof (invalid_pages_false _ _ Hinv) as Hall.
  split_and!.
  - assert (pages d ≠ []) as Hpages.
    { destruct page_groups as [|group groups].
      { unfold parse_page_groups in Hparse. apply mapM_Some_1 in Hparse.
        apply Forall2_nil_inv_r in Hparse.
        by apply split_on_nonempty in Hparse. }
      apply Forall_cons_1 in Hne as [Hg _], Hall as [Hgall _].
      destruct group as [|p group]; [done|].
      apply Forall_cons_1 in Hgall as [Hp _]. intros E. rewrite E in Hp.
      simpl in Hp. lia. }
    assert (String.eqb (strip text) "" = false) as Hnonempty.
    { destruct (String.eqb_spec (strip text) "") as [E|]; [|done].
      rewrite E, parse_page_groups_empty in Hparse. done. }
    unfold split_pdf.
    rewrite Hd, truthy_open, Hnonempty, Hparse, Hinv, Hmk by done.
    assert (String.eqb (output_dir env) "" = false) as ->
      by (by apply String.eqb_neq).
    cbn [negb]. by rewrite write_parts_all.
  - apply length_imap.
  - intros i group Hi. unfold expected_parts.
    rewrite list_lookup_imap, Hi. split; [done|].
    rewrite Forall_forall in Hall.
    assert (Forall (fun p => 0 ≤ p < Z.of_nat (length (pages d))) group)
      as Hg by (apply Hall; by eapply list_elem_of_lookup_2).
    clear -Hg. induction Hg as [|p group Hp _ IH]; [done|].
    unfold select_pages in *. cbn.
    destruct (lookup_lt_is_Some_2 (pages d) (Z.to_nat p)) as [x ->]; [lia|].
    simpl. by rewrite IH.
Qed.

End SplitWrite.

(** ** File names *)

Section Names.
Local Open Scope string_scope.

Lemma split_on_sep_app sep a b :
  split_on sep (a ++ String sep b) = (split_on sep a ++ split_on sep b)%list.
Proof.
  induction a as [|c a IH].
  - change ("" ++ String sep b) with (String sep b). simpl.
    rewrite Ascii.eqb_refl. reflexivity.
  - change (String c a ++ String sep b) with (String c (a ++ String sep b)).
    simpl. rewrite IH. destruct (Ascii.eqb c sep); [done|].
    pose proof (split_on_contains sep a) as Hne.
    destruct (split_on sep a) as [|w ws]; [|done].
    destruct (contains sep a); simpl in Hne; [lia|done].
Qed.

Lemma py_last_snoc (l : list string) s : py_last (l ++ [s]) = s.
Proof. unfold py_last. by rewrite last_snoc. Qed.

Lemma py_last_after_sep sep a b :
  contains sep b = false → py_last (split_on sep (a ++ String sep b)) = b.
Proof.
  intros Hb. rewrite split_on_sep_app, (split_on_absent sep b Hb).
  apply py_last_snoc.
Qed.

Lemma split_on_app_absent sep a b :
  contains sep b = false →
  ∃ l w, split_on sep a = (l ++ [w])%list
         ∧ split_on sep (a ++ b) = (l ++ [(w ++ b)%string])%list.
Proof.
  intros Hb. induction a as [|c a (l & w & Ha & Hab)].
  - exists [], "". split; [done|]. by apply split_on_absent.
  - change (String c a ++ b) with (String c (a ++ b)). simpl.
    rewrite Ha, Hab. destruct (Ascii.eqb c sep).
    + by exists ("" :: l), w.
    + destruct l as [|x l]; simpl.
      * by exists [], (String c w).
      * by exists (String c x :: l), w.
Qed.

Lemma py_last_app_absent sep a b :
  contains sep b = false →
  py_last (split_on sep (a ++ b)) = py_last (split_on sep a) ++ b.
Proof.
  intros Hb. destruct (split_on_app_absent sep a b Hb) as (l & w & -> & ->).
  by rewrite !py_last_snoc.
Qed.

(** The pieces of a split hold no separator, and no character the
    text did not hold. *)
Lemma split_on_pieces sep c s :
  (c = sep ∨ contains c s = false) →
  Forall (fun w => contains c w = false) (split_on sep s).
Proof.
  intros Hc. induction s as [|x s IH]; [by repeat constructor|].
  simpl. destruct (Ascii.eqb_spec x sep) as [->|Hx].
  - constructor; [done|]. apply IH. destruct Hc as [|Hc]; [by left|].
    simpl in Hc. apply orb_false_iff in Hc as [_ ?]. by right.
  - assert (Ascii.eqb x c = false) as Hxc.
    { destruct Hc as [->|Hc]; [by apply Ascii.eqb_neq|].
      simpl in Hc. by apply orb_false_iff in Hc as [? _]. }
    assert (c = sep ∨ contains c s = false) as Hc'.
    { destruct Hc as [|Hc]; [by left|]. simpl in Hc.
      apply orb_false_iff in Hc as [_ ?]. by right. }
    specialize (IH Hc').
    destruct (split_on sep s) as [|w ws]; [repeat constructor; simpl; by rewrite Hxc|].
    apply Forall_cons_1 in IH as [Hw Hws]. constructor; [|done].
    simpl. by rewrite Hxc, Hw.
Qed.

Lemma py_last_Forall (P : string → Prop) (l : list string) :
  l ≠ [] → Forall P l → P (py_last l).
Proof.
  intros Hne Hall. unfold py_last.
  destruct (last l) as [w|] eqn:Hlast.
  - simpl. rewrite Forall_forall in Hall. apply Hall.
    apply last_Some in Hlast as [l' ->]. apply elem_of_app. right.
    apply list_elem_of_here.
  - by apply last_None in Hlast.
Qed.

Lemma replace_char_contains a b s :
  a ≠ b → contains a (replace_char a b s) = false.
Proof.
  intros Hab. induction s as [|c s IH]; [done|]. simpl. rewrite IH, orb_false_r.
  destruct (Ascii.eqb_spec c a) as [->|Hc]; by apply Ascii.eqb_neq.
Qed.

Lemma replace_char_absent a b s :
  contains a s = false → replace_char a b s = s.
Proof.
  induction s as [|c s IH]; [done|]. simpl.
  intros [Hc Hs]%orb_false_iff. by rewrite Hc, IH.
Qed.

Lemma replace_char_app a b s1 s2 :
  replace_char a b (s1 ++ s2) = replace_char a b s1 ++ replace_char a b s2.
Proof.
  induction s1 as [|c s1 IH]; [done|].
  change (String c s1 ++ s2) with (String c (s1 ++ s2)). simpl. by rewrite IH.
Qed.

(** Property X20.  The name shown in a row of the merge table never
    holds a slash or a backslash; for a path ending in a separator
    followed by a file name without separators it is that file
    name. *)
Theorem merge_row_name_is_file_name :
  (∀ pdf_path,
      contains "/" (merge_row_name pdf_path) = false
      ∧ contains "\" (merge_row_name pdf_path) = false)
  ∧ (∀ dir file sep,
       sep = "/"%char ∨ sep = "\"%char →
       contains "/" file = false → contains "\" file = false →
       merge_row_name (dir ++ String sep file) = file
       ∧ merge_row_name file = file).
Proof.
  split.
  - intros pdf_path. unfold merge_row_name. split.
    + apply (py_last_Forall (fun w => contains "/" w = false));
        [apply split_on_nonempty|].
      apply split_on_pieces. right. by apply replace_char_contains.
    + apply (py_last_Forall (fun w => contains "\" w = false));
        [apply split_on_nonempty|].
      apply split_on_pieces. by left.
  - intros dir file sep Hsep Hf1 Hf2. unfold merge_row_name. split.
    + rewrite replace_char_app.
      change (replace_char "/" "\" (String sep file))
        with (String (if Ascii.eqb sep "/" then "\"%char else sep)
                     (replace_char "/" "\" file)).
      rewrite (replace_char_absent _ _ file Hf1).
      assert ((if Ascii.eqb sep "/" then "\"%char else sep) = "\"%char) as ->
        by (by destruct Hsep as [-> | ->]).
      by apply py_last_after_sep.
    + rewrite (replace_char_absent _ _ file Hf1).
      by rewrite (split_on_absent _ _ Hf2).
Qed.

Lemma string_app_assoc a b c : (a ++ b) ++ c = a ++ (b ++ c).
Proof.
  induction a as [|x a IH]; [done|].
  change (String x ((a ++ b) ++ c) = String x (a ++ (b ++ c))).
  by rewrite IH.
Qed.

Lemma before_last_absent sep s :
  contains sep s = false → before_last sep s = None.
Proof.
  induction s as [|c s IH]; [done|]. simpl.
  intros [Hc Hs]%orb_false_iff. by rewrite (IH Hs), Hc.
Qed.

Lemma before_last_app sep a b :
  contains sep b = false → before_last sep (a ++ String sep b) = Some a.
Proof.
  intros Hb. induction a as [|c a IH].
  - change ("" ++ String sep b) with (String sep b). simpl.
    by rewrite (before_last_absent sep b Hb), Ascii.eqb_refl.
  - change (String c a ++ String sep b) with (String c (a ++ String sep b)).
    simpl. by rewrite IH.
Qed.

Lemma before_last_contains sep c s r :
  before_last sep s = Some r → contains c s = false → contains c r = false.
Proof.
  revert r. induction s as [|x s IH]; intros r; [done|]. simpl.
  intros Hr [Hx Hs]%orb_false_iff.
  destruct (before_last sep s) as [r'|].
  - injection Hr as <-. simpl. by rewrite Hx, (IH r').
  - destruct (Ascii.eqb x sep); [|done]. by injection Hr as <-.
Qed.

(** Property X10.  The base name that names the split folder never
    holds a slash or a backslash; for a path [dir/stem.ext] or
    [dir\stem.ext] (or just [stem.ext]) whose stem has no separator
    and whose extension has no dot it is the stem. *)
Theorem split_base_name_is_stem :
  (∀ name,
      contains "/" (split_base_name name) = false
      ∧ contains "\" (split_base_name name) = false)
  ∧ (∀ dir stem ext sep,
       sep = "/"%char ∨ sep = "\"%char →
       contains "/" stem = false → contains "\" stem = false →
       contains "." ext = false →
       split_base_name (dir ++ String sep (stem ++ String "." ext)) = stem
       ∧ split_base_name (stem ++ String "." ext) = stem).
Proof.
  split.
  - intros name. unfold split_base_name.
    set (x := py_last (split_on "/" (rsplit1_head "." name))).
    assert (contains "/" x = false) as Hx.
    { apply (py_last_Forall (fun w => contains "/" w = false));
        [apply split_on_nonempty|]. apply split_on_pieces. by left. }
    split.
    + apply (py_last_Forall (fun w => contains "/" w = false));
        [apply split_on_nonempty|]. apply split_on_pieces. by right.
    + apply (py_last_Forall (fun w => contains "\" w = false));
        [apply split_on_nonempty|]. apply split_on_pieces. by left.
  - intros dir stem ext sep Hsep Hs1 Hs2 Hext.
    unfold split_base_name, rsplit1_head. split.
    + change (dir ++ String sep (stem ++ String "." ext))
        with (dir ++ (String sep stem ++ String "." ext)).
      rewrite <- string_app_assoc.
      rewrite before_last_app by done. cbn [default from_option id].
      destruct Hsep as [-> | ->].
      * rewrite py_last_after_sep by done.
        by rewrite (split_on_absent _ _ Hs2).
      * rewrite (py_last_app_absent "/" dir (String "\" stem))
          by (simpl; by rewrite Hs1).
        by apply py_last_after_sep.
    + rewrite before_last_app by done. cbn [default from_option id].
      rewrite (split_on_absent _ _ Hs1). change (py_last [stem]) with stem.
      by rewrite (split_on_absent _ _ Hs2).
Qed.

End Names.

(** ** The texts the input fields accept *)

Section Texts.
Local Open Scope string_scope.
Implicit Types (sp : ascii → bool) (s t w : string).

Lemma lstrip_drop_leading s : lstrip s = drop_leading is_space s.
Proof. induction s as [|c s IH]; [done|]. simpl. by rewrite IH. Qed.

Lemma rstrip_drop_trailing s : rstrip s = drop_trailing is_space s.
Proof. induction s as [|c s IH]; [done|]. simpl. by rewrite IH. Qed.

Lemma all_chars_app p a b :
  all_chars p (a ++ b) = all_chars p a && all_chars p b.
Proof.
  induction a as [|c a IH]; [done|].
  change (String c a ++ b) with (String c (a ++ b)). simpl.
  by rewrite IH, andb_assoc.
Qed.

Lemma all_chars_impl (p q : ascii → bool) s :
  (∀ c, p c = true → q c = true) → all_chars p s = true → all_chars q s = true.
Proof.
  intros Hpq. induction s as [|c s IH]; [done|]. simpl.
  intros [Hc Hs]%andb_true_iff. by rewrite (Hpq c Hc), IH.
Qed.

Lemma int_space_is_space c : is_int_space c = true → is_space c = true.
Proof. destruct c as [[] [] [] [] [] [] [] []]; by vm_compute. Qed.

Lemma all_chars_contains p sep s :
  p sep = false → all_chars p s = true → contains sep s = false.
Proof.
  intros Hsep. induction s as [|c s IH]; [done|]. simpl.
  intros [Hc Hs]%andb_true_iff. rewrite (IH Hs), orb_false_r.
  apply Ascii.eqb_neq. intros ->. congruence.
Qed.

(** *** Dropping white space *)

Lemma drop_leading_split sp s :
  ∃ w, s = w ++ drop_leading sp s ∧ all_chars sp w = true.
Proof.
  induction s as [|c s (w & Hs & Hw)]; [by exists ""|]. simpl.
  destruct (sp c) eqn:Hc.
  - exists (String c w). split; [|by simpl; rewrite Hc].
    change (String c w ++ drop_leading sp s)
      with (String c (w ++ drop_leading sp s)). by rewrite <- Hs.
  - by exists "".
Qed.

Lemma drop_trailing_split sp s :
  ∃ w, s = drop_trailing sp s ++ w ∧ all_chars sp w = true.
Proof.
  induction s as [|c s (w & Hs & Hw)]; [by exists ""|]. simpl.
  destruct (drop_trailing sp s) as [|x r] eqn:Hr.
  - change ("" ++ w) with w in Hs. subst w.
    destruct (sp c) eqn:Hc.
    + exists (String c s). split; [done|]. simpl. by rewrite Hc.
    + by exists s.
  - exists w. split; [|done].
    change (String c (String x r) ++ w) with (String c (String x r ++ w)).
    by rewrite <- Hs.
Qed.

Lemma drop_leading_spaces sp w s :
  all_chars sp w = true → drop_leading sp (w ++ s) = drop_leading sp s.
Proof.
  induction w as [|c w IH]; [done|]. simpl.
  intros [Hc Hw]%andb_true_iff. by rewrite Hc, IH.
Qed.

Lemma drop_trailing_all sp w :
  all_chars sp w = true → drop_trailing sp w = "".
Proof.
  induction w as [|c w IH]; [done|]. simpl.
  intros [Hc Hw]%andb_true_iff. by rewrite IH, Hc.
Qed.

Lemma drop_trailing_spaces sp s w :
  all_chars sp w = true → drop_trailing sp (s ++ w) = drop_trailing sp s.
Proof.
  intros Hw. induction s as [|c s IH].
  - change ("" ++ w) with w. by rewrite drop_trailing_all.
  - change (String c s ++ w) with (String c (s ++ w)). simpl. by rewrite IH.
Qed.

Lemma drop_trailing_app sp a b :
  drop_trailing sp b ≠ "" →
  drop_trailing sp (a ++ b) = a ++ drop_trailing sp b.
Proof.
  intros Hb. induction a as [|c a IH]; [done|].
  change (String c a ++ b) with (String c (a ++ b)).
  change (String c a ++ drop_trailing sp b)
    with (String c (a ++ drop_trailing sp b)).
  simpl. rewrite IH.
  destruct (a ++ drop_trailing sp b) eqn:E; [|done].
  destruct a; [change (drop_trailing sp b = "") in E; congruence|discriminate E].
Qed.

Lemma drop_leading_length sp s :
  (String.length (drop_leading sp s) ≤ String.length s)%nat.
Proof.
  induction s as [|c s IH]; [done|]. simpl.
  destruct (sp c); simpl; lia.
Qed.

Lemma drop_leading_tight sp s t :
  tight sp s → drop_leading sp (s ++ t) = s ++ t.
Proof.
  intros (Hne & Hl & _). destruct s as [|c s]; [done|].
  change (String c s ++ t) with (String c (s ++ t)). simpl in *.
  destruct (sp c); [|done].
  exfalso. pose proof (drop_leading_length sp s) as Hlen.
  rewrite Hl in Hlen. simpl in Hlen. lia.
Qed.

Lemma trim_tight sp w1 s w2 :
  all_chars sp w1 = true → all_chars sp w2 = true → tight sp s →
  drop_trailing sp (drop_leading sp (w1 ++ s ++ w2)) = s.
Proof.
  intros H1 H2 Hs. rewrite drop_leading_spaces, drop_leading_tight by done.
  rewrite drop_trailing_spaces by done. apply Hs.
Qed.

Lemma tight_app sp a m b : tight sp a → tight sp b → tight sp (a ++ m ++ b).
Proof.
  intros Ha Hb. split_and!.
  - destruct Ha as (Hne & _). destruct a; [done|discriminate].
  - by apply drop_leading_tight.
  - destruct Hb as (Hne & _ & Hr).
    rewrite <- !string_app_assoc. rewrite drop_trailing_app; rewrite Hr; done.
Qed.

Lemma trim_split sp s :
  ∃ w1 w2, s = w1 ++ drop_trailing sp (drop_leading sp s) ++ w2
           ∧ all_chars sp w1 = true ∧ all_chars sp w2 = true.
Proof.
  destruct (drop_leading_split sp s) as (w1 & Hs & H1).
  destruct (drop_trailing_split sp (drop_leading sp s)) as (w2 & Ht & H2).
  exists w1, w2. split_and!; [|done..]. by rewrite <- Ht.
Qed.

Lemma strip_trim s : strip s = drop_trailing is_space (drop_leading is_space s).
Proof. unfold strip. by rewrite lstrip_drop_leading, rstrip_drop_trailing. Qed.

End Texts.

Section Numbers.
Local Open Scope string_scope.
Implicit Types (sp : ascii → bool) (s t w g : string) (gs : list string).

(** *** The literals [int()] reads *)

Lemma join_cons sep g g' gs :
  join sep (g :: g' :: gs) = g ++ String sep (join sep (g' :: gs)).
Proof. done. Qed.

Lemma underscore_not_digit : digit_value "_" = None.
Proof. done. Qed.

Lemma digit_group_head g :
  digit_group g → ∃ c d g', g = String c g' ∧ digit_value c = Some d.
Proof.
  intros [Hg Hne]. destruct g as [|c g']; [done|]. simpl in Hg.
  destruct (digit_value c) as [d|] eqn:Hd; [|done]. by exists c, d, g'.
Qed.

Lemma join_head sep g gs :
  digit_group g →
  ∃ c d r, join sep (g :: gs) = String c r ∧ digit_value c = Some d.
Proof.
  intros (c & d & g' & -> & Hd)%digit_group_head.
  destruct gs as [|g2 gs]; [by exists c, d, g'|].
  rewrite join_cons. by exists c, d, (g' ++ String sep (join sep (g2 :: gs))).
Qed.

(** [int_digits], started after a prefix worth [acc], reads exactly
    the texts [g _ g1 _ ... _ gn] of digit groups, the first of which
    may be empty when a digit precedes it. *)
Lemma int_digits_groups s acc prev v :
  int_digits acc prev s = Some v
  ↔ ∃ g gs, s = join "_" (g :: gs) ∧ all_digits g = true
            ∧ (prev = true ∨ g ≠ "") ∧ Forall digit_group gs
            ∧ v = foldl decimal acc (g :: gs).
Proof.
  revert acc prev v. induction s as [|c s IH]; intros acc prev v.
  - cbn [int_digits]. split.
    + destruct prev; [|done]. intros [= <-]. exists "", [].
      split_and!; [done|done|by left|constructor|done].
    + intros (g & gs & Hs & Hg & Hp & Hgs & ->).
      destruct gs as [|g' gs].
      * simpl in Hs. subst g. by destruct Hp as [->|].
      * rewrite join_cons in Hs. by destruct g.
  - cbn [int_digits]. destruct (digit_value c) as [d|] eqn:Hd.
    + rewrite IH. split.
      * intros (g & gs & -> & Hg & _ & Hgs & ->).
        exists (String c g), gs. split_and!; [|by simpl; rewrite Hd|by right|done|].
        -- by destruct gs.
        -- simpl. by rewrite Hd.
      * intros (g & gs & Hs & Hg & Hp & Hgs & ->).
        destruct g as [|x g].
        { destruct gs as [|g' gs]; [done|]. rewrite join_cons in Hs.
          injection Hs as -> _. by rewrite underscore_not_digit in Hd. }
        assert (x = c ∧ s = join "_" (g :: gs)) as [-> ->].
        { destruct gs; [by injection Hs|]. rewrite join_cons in Hs.
          by injection Hs. }
        simpl in Hg. rewrite Hd in Hg.
        exists g, gs. split_and!; [done|done|by left|done|].
        simpl. by rewrite Hd.
    + split.
      * destruct (Ascii.eqb_spec c "_") as [->|]; [|done].
        destruct prev; [|done]. simpl.
        destruct s as [|c' s']; [done|].
        destruct (digit_value c') as [d'|] eqn:Hd'; [|done].
        intros (g & gs & Hs & Hg & [?|Hne] & Hgs & ->)%IH; [done|].
        exists "", (g :: gs). split_and!; [|done|by left| |done].
        -- by rewrite <- Hs.
        -- by constructor.
      * intros (g & gs & Hs & Hg & Hp & Hgs & ->).
        destruct g as [|x g].
        2:{ assert (x = c) as ->.
            { destruct gs; [by injection Hs|]. rewrite join_cons in Hs.
              by injection Hs. }
            simpl in Hg. by rewrite Hd in Hg. }
        destruct gs as [|g' gs]; [done|]. rewrite join_cons in Hs.
        remember (join "_" (g' :: gs)) as j eqn:Hj0.
        injection Hs as -> ->. destruct Hp as [->|]; [|done].
        apply Forall_cons_1 in Hgs as [Hg' Hgs].
        destruct (join_head "_" g' gs Hg') as (c' & d' & r & Hj & Hd').
        rewrite <- Hj0 in Hj. rewrite Ascii.eqb_refl. cbn [andb].
        assert (int_digits acc false j
                = Some (foldl decimal acc ("" :: g' :: gs))) as Hrec.
        { apply IH. exists g', gs. destruct Hg' as [? ?].
          split_and!; [done|done|by right|done|done]. }
        rewrite <- Hrec, Hj. by rewrite Hd'.
Qed.

Lemma count_digits_app a b :
  count_digits (a ++ b) = (count_digits a + count_digits b)%nat.
Proof.
  induction a as [|c a IH]; [done|].
  change (String c a ++ b) with (String c (a ++ b)). simpl. rewrite IH. lia.
Qed.

Lemma count_digits_join g gs :
  all_digits g = true → Forall digit_group gs →
  count_digits (join "_" (g :: gs)) = sum_list (String.length <$> g :: gs).
Proof.
  intros Hg Hgs. revert g Hg.
  induction Hgs as [|g' gs [Hg' _] _ IH]; intros g Hg.
  - simpl. rewrite count_digits_all by done. lia.
  - rewrite join_cons, count_digits_app.
    change (count_digits (String "_" (join "_" (g' :: gs))))
      with (count_digits (join "_" (g' :: gs))).
    rewrite IH, count_digits_all by done. done.
Qed.

Lemma int_literal_text s v : int_literal s = Some v ↔ literal_text s v.
Proof.
  unfold int_literal, literal_text. split.
  - destruct (_ <=? _)%nat eqn:Hle; [|done].
    intros (g & gs & -> & Hg & [?|Hne] & Hgs & ->)%int_digits_groups; [done|].
    exists (g :: gs). apply Nat.leb_le in Hle.
    rewrite count_digits_join in Hle by done.
    split_and!; [done| |done|done|done]. by constructor.
  - intros (gs & Hne & Hgs & -> & Hlen & ->).
    destruct gs as [|g gs]; [done|].
    apply Forall_cons_1 in Hgs as [[Hg Hgne] Hgs].
    rewrite count_digits_join by done.
    destruct (_ <=? _)%nat eqn:Hle; [|apply Nat.leb_gt in Hle; lia].
    apply int_digits_groups. exists g, gs.
    split_and!; [done|done|by right|done|done].
Qed.

(** A literal holds digits and underscores only, begins and ends with
    a digit. *)
Lemma literal_text_tight sp s v :
  (∀ c d, digit_value c = Some d → sp c = false) →
  literal_text s v → tight sp s.
Proof.
  intros Hsp (gs & Hne & Hgs & -> & _ & _).
  assert (∀ g, digit_group g → tight sp g) as Hgroup.
  { intros g [Hg Hgne]. split_and!; [done| |].
    - destruct g as [|c g]; [done|]. simpl in *.
      destruct (digit_value c) as [d|] eqn:Hd; [|done].
      by rewrite (Hsp c d).
    - clear Hgne. induction g as [|c g IH]; [done|]. simpl in *.
      destruct (digit_value c) as [d|] eqn:Hd; [|done].
      rewrite (IH Hg). destruct g; [|done]. by rewrite (Hsp c d). }
  induction Hgs as [|g gs Hg Hgs IH]; [done|].
  destruct gs as [|g' gs]; [by apply Hgroup|].
  rewrite join_cons.
  destruct (IH ltac:(done)) as (Hjne & Hjl & Hjr).
  destruct (Hgroup g Hg) as (Hgne & Hgl & Hgr).
  split_and!.
  - by destruct g.
  - by apply drop_leading_tight.
  - change (g ++ String "_" (join "_" (g' :: gs)))
      with (g ++ (String "_" "" ++ join "_" (g' :: gs))).
    rewrite <- string_app_assoc.
    rewrite drop_trailing_app; rewrite Hjr; done.
Qed.

Lemma literal_text_contains sep s v :
  digit_value sep = None → sep ≠ "_"%char →
  literal_text s v → contains sep s = false.
Proof.
  intros Hsep Hne (gs & _ & Hgs & -> & _ & _).
  apply contains_join; [done|].
  eapply Forall_impl; [exact Hgs|]. intros g [Hg _]. by apply contains_digits.
Qed.

Lemma literal_text_head s v :
  literal_text s v → ∃ c d r, s = String c r ∧ digit_value c = Some d.
Proof.
  intros (gs & Hne & Hgs & -> & _ & _). destruct gs as [|g gs]; [done|].
  apply Forall_cons_1 in Hgs as [Hg _]. by apply join_head.
Qed.

(** *** The texts [int()] reads *)

Lemma py_int_unfold s :
  py_int s
  = match drop_trailing is_int_space (drop_leading is_int_space s) with
    | "" => None
    | String c t =>
        if Ascii.eqb c "-" then Z.opp <$> int_literal t
        else if Ascii.eqb c "+" then int_literal t
        else int_literal (String c t)
    end.
Proof.
  unfold py_int. destruct (drop_trailing _ _) as [|c t]; [done|].
  destruct c as [[] [] [] [] [] [] [] []]; reflexivity.
Qed.

(** The core of a number, its sign and literal, has no white space at
    either end. *)
Lemma number_core_tight sp sign lit n :
  (∀ c d, digit_value c = Some d → sp c = false) →
  sp "+"%char = false → sp "-"%char = false →
  sign = "" ∨ sign = "+" ∨ sign = "-" →
  literal_text lit n → tight sp (sign ++ lit).
Proof.
  intros Hsp Hplus Hminus Hsign Hlit.
  pose proof (literal_text_tight sp lit n Hsp Hlit) as (Hne & Hl & Hr).
  destruct Hsign as [->|[->| ->]]; [done|..].
  - split_and!; [done|by simpl; rewrite Hplus|].
    change ("+" ++ lit) with (String "+" "" ++ lit).
    rewrite drop_trailing_app; rewrite Hr; done.
  - split_and!; [done|by simpl; rewrite Hminus|].
    change ("-" ++ lit) with (String "-" "" ++ lit).
    rewrite drop_trailing_app; rewrite Hr; done.
Qed.

Lemma py_int_core sign lit n v :
  literal_text lit n →
  (sign = "" ∧ v = n ∨ sign = "+" ∧ v = n ∨ sign = "-" ∧ v = - n) →
  match sign ++ lit with
  | "" => None
  | String c t =>
      if Ascii.eqb c "-" then Z.opp <$> int_literal t
      else if Ascii.eqb c "+" then int_literal t
      else int_literal (String c t)
  end = Some v.
Proof.
  intros Hlit Hsign. pose proof Hlit as Hl%int_literal_text.
  destruct Hsign as [[-> ->]|[[-> ->]|[-> ->]]].
  - destruct (literal_text_head lit n Hlit) as (c & d & r & -> & Hd).
    change ("" ++ String c r) with (String c r).
    destruct (digit_not_sign c d Hd) as [Hm Hp].
    apply Ascii.eqb_neq in Hm, Hp. by rewrite Hm, Hp.
  - change ("+" ++ lit) with (String "+" lit). by simpl.
  - change ("-" ++ lit) with (String "-" lit). simpl. by rewrite Hl.
Qed.

(** [int()] reads exactly the number texts, each as its value. *)
Lemma py_int_int_text s v : py_int s = Some v ↔ int_text s v.
Proof.
  rewrite py_int_unfold. split.
  - destruct (trim_split is_int_space s) as (w1 & w2 & Hs & H1 & H2).
    destruct (drop_trailing _ _) as [|c t]; [done|].
    destruct (Ascii.eqb_spec c "-") as [->|Hm];
      [|destruct (Ascii.eqb_spec c "+") as [->|Hp]].
    + destruct (int_literal t) as [n|] eqn:Hn; [|done]. intros [= <-].
      apply int_literal_text in Hn.
      exists w1, "-", t, w2, n. split_and!; [done..|]. right. by right.
    + intros Hn%int_literal_text.
      exists w1, "+", t, w2, v. split_and!; [done..|]. right. by left.
    + intros Hn%int_literal_text.
      exists w1, "", (String c t), w2, v. split_and!; [done..|]. by left.
  - intros (w1 & sign & lit & w2 & n & -> & H1 & H2 & Hlit & Hsign).
    rewrite <- (string_app_assoc sign lit w2).
    rewrite trim_tight; [by apply (py_int_core sign lit n)|done..|].
    apply (number_core_tight _ sign lit n); [apply digit_not_int_space|done..| |done].
    destruct Hsign as [[? _]|[[? _]|[? _]]]; tauto.
Qed.

Lemma int_text_contains sep s v :
  digit_value sep = None → is_int_space sep = false →
  sep ≠ "_"%char → sep ≠ "+"%char → sep ≠ "-"%char →
  int_text s v → contains sep s = false.
Proof.
  intros Hd Hsp Hu Hp Hm (w1 & sign & lit & w2 & n & -> & H1 & H2 & Hlit & Hsign).
  rewrite !contains_app.
  rewrite (all_chars_contains is_int_space sep w1),
    (all_chars_contains is_int_space sep w2) by done.
  rewrite (literal_text_contains sep lit n), !orb_false_r by done.
  cbn [orb].
  destruct Hsign as [[-> _]|[[-> _]|[-> _]]]; cbn [contains]; [done|..];
    rewrite orb_false_r; apply Ascii.eqb_neq; congruence.
Qed.

(** A number text splits into white space and a core without white
    space at either end that reads as the same number. *)
Lemma int_text_core s v :
  int_text s v →
  ∃ w1 core w2,
    s = w1 ++ core ++ w2
    ∧ all_chars is_int_space w1 = true ∧ all_chars is_int_space w2 = true
    ∧ tight is_space core
    ∧ (∀ w, all_chars is_int_space w = true →
            int_text (core ++ w) v ∧ int_text (w ++ core) v).
Proof.
  intros (w1 & sign & lit & w2 & n & -> & H1 & H2 & Hlit & Hsign).
  exists w1, (sign ++ lit), w2. split_and!; [by rewrite string_app_assoc|done..| |].
  - apply (number_core_tight _ sign lit n); [apply digit_not_space|done..| |done].
    destruct Hsign as [[? _]|[[? _]|[? _]]]; tauto.
  - intros w Hw. split.
    + exists "", sign, lit, w, n. split_and!; [|done..].
      by rewrite string_app_assoc.
    + exists w, sign, lit, "", n. split_and!; [|done..].
      assert (∀ x, x ++ "" = x) as Hnil.
      { intros x. induction x as [|c x IH]; [done|].
        change (String c x ++ "") with (String c (x ++ "")). by rewrite IH. }
      by rewrite Hnil.
Qed.

End Numbers.

Section Fields.
Local Open Scope string_scope.
Implicit Types (s t w a b : string).

Lemma split_on_join_id sep s : join sep (split_on sep s) = s.
Proof.
  induction s as [|c s IH]; [done|]. simpl.
  pose proof (split_on_nonempty sep s) as Hne.
  destruct (Ascii.eqb_spec c sep) as [->|Hc].
  - destruct (split_on sep s) as [|w ws]; [done|].
    rewrite join_cons. by rewrite IH.
  - destruct (split_on sep s) as [|w ws]; [done|].
    destruct ws as [|w' ws].
    + simpl in *. by rewrite IH.
    + rewrite join_cons in *.
      change (String c w ++ String sep (join sep (w' :: ws)))
        with (String c (w ++ String sep (join sep (w' :: ws)))).
      by rewrite IH.
Qed.

Lemma split_on_one sep s a :
  split_on sep s = [a] → a = s ∧ contains sep s = false.
Proof.
  intros Hs. pose proof (split_on_contains sep s) as Hc.
  destruct (contains sep s); rewrite Hs in Hc; simpl in Hc; [lia|].
  split; [congruence|done].
Qed.

Lemma split_on_two sep s a b :
  split_on sep s = [a; b] →
  s = a ++ String sep b ∧ contains sep a = false ∧ contains sep b = false.
Proof.
  intros Hs. pose proof (split_on_join_id sep s) as Hj.
  pose proof (split_on_pieces sep sep s (or_introl eq_refl)) as Hp.
  rewrite Hs in Hj, Hp.
  apply Forall_cons_1 in Hp as [Ha Hp]. apply Forall_cons_1 in Hp as [Hb _].
  by rewrite <- Hj.
Qed.

Lemma all_int_space_space w :
  all_chars is_int_space w = true → all_chars is_space w = true.
Proof. apply all_chars_impl, int_space_is_space. Qed.

(** Two numbers around a separator, with white space around the
    whole: stripping and splitting gives two pieces that [int()]
    reads as these numbers. *)
Lemma two_numbers_read sep w1 a b w2 x y :
  all_chars is_space w1 = true → all_chars is_space w2 = true →
  int_text a x → int_text b y →
  contains sep a = false → contains sep b = false →
  ∃ a' b', split_on sep (strip (w1 ++ a ++ String sep b ++ w2)) = [a'; b']
           ∧ py_int a' = Some x ∧ py_int b' = Some y.
Proof.
  intros H1 H2 Ha Hb Hca Hcb.
  destruct (int_text_core a x Ha) as (i1 & ca & i2 & -> & Hi1 & Hi2 & Hta & Hra).
  destruct (int_text_core b y Hb) as (j1 & cb & j2 & -> & Hj1 & Hj2 & Htb & Hrb).
  exists (ca ++ i2), (j1 ++ cb).
  assert (w1 ++ (i1 ++ ca ++ i2) ++ String sep (j1 ++ cb ++ j2) ++ w2
          = (w1 ++ i1) ++ (ca ++ (i2 ++ String sep j1) ++ cb) ++ (j2 ++ w2))
    as ->.
  { change (String sep (j1 ++ cb ++ j2)) with (String sep "" ++ j1 ++ cb ++ j2).
    change (String sep j1) with (String sep "" ++ j1).
    by rewrite !string_app_assoc. }
  rewrite strip_trim, trim_tight.
  - split_and!.
    + assert (ca ++ (i2 ++ String sep j1) ++ cb
              = (ca ++ i2) ++ String sep (j1 ++ cb)) as ->.
      { change (String sep (j1 ++ cb)) with (String sep "" ++ j1 ++ cb).
        change (String sep j1) with (String sep "" ++ j1).
        by rewrite !string_app_assoc. }
      rewrite !contains_app in Hca, Hcb.
      apply orb_false_iff in Hca as [_ [Hca Hci2]%orb_false_iff].
      apply orb_false_iff in Hcb as [Hcj1 [Hcb _]%orb_false_iff].
      rewrite split_on_app by (by rewrite contains_app, Hca, Hci2).
      by rewrite split_on_absent by (by rewrite contains_app, Hcj1, Hcb).
    + apply py_int_int_text, Hra, Hi2.
    + apply py_int_int_text, Hrb, Hj1.
  - rewrite all_chars_app, H1. by apply all_int_space_space.
  - rewrite all_chars_app, H2, andb_true_r. by apply all_int_space_space.
  - by apply tight_app.
Qed.

(** Conversely, a text whose stripped form splits in two pieces that
    [int()] reads is two number texts around the separator. *)
Lemma two_numbers_text sep text a b x y :
  split_on sep (strip text) = [a; b] →
  py_int a = Some x → py_int b = Some y →
  ∃ w1 w2, text = w1 ++ a ++ String sep b ++ w2
           ∧ all_chars is_space w1 = true ∧ all_chars is_space w2 = true
           ∧ int_text a x ∧ int_text b y
           ∧ contains sep a = false ∧ contains sep b = false.
Proof.
  intros (Hs & Hca & Hcb)%split_on_two Ha%py_int_int_text Hb%py_int_int_text.
  destruct (trim_split is_space text) as (w1 & w2 & Ht & H1 & H2).
  rewrite <- strip_trim, Hs in Ht.
  exists w1, w2. split_and!; [|done..].
  rewrite Ht at 1. by rewrite string_app_assoc.
Qed.

(** The segments [read_item] reads are exactly the item texts. *)
Lemma read_item_item_text segment it :
  read_item segment = Some it ↔ item_text segment it.
Proof.
  unfold read_item, item_text. split.
  - destruct (split_on "-" (strip segment)) as [|a [|b [|c l]]] eqn:Hs; [done| | |done].
    + destruct (py_int a) as [n|] eqn:Hn; [|done]. intros [= <-].
      apply split_on_one in Hs as [-> Hc].
      destruct (trim_split is_space segment) as (w1 & w2 & Ht & H1 & H2).
      rewrite <- strip_trim in Ht.
      exists w1, (strip segment), w2. split_and!; try done.
      by apply py_int_int_text.
    + destruct (py_int a) as [x|] eqn:Hx; [|done].
      destruct (py_int b) as [y|] eqn:Hy; [|done]. intros [= <-].
      destruct (two_numbers_text "-" segment a b x y Hs Hx Hy)
        as (w1 & w2 & Ht & H1 & H2 & Ha & Hb & Hca & Hcb).
      exists w1, (a ++ String "-" b), w2. split_and!; [|done..|].
      * rewrite Ht. by rewrite string_app_assoc.
      * by exists a, b.
  - intros (w1 & body & w2 & -> & H1 & H2 & Hit).
    destruct it as [n|x y].
    + destruct Hit as [Hn Hc].
      destruct (int_text_core body n Hn)
        as (i1 & core & i2 & -> & Hi1 & Hi2 & Ht & Hr).
      assert (w1 ++ (i1 ++ core ++ i2) ++ w2 = (w1 ++ i1) ++ core ++ (i2 ++ w2))
        as -> by (by rewrite !string_app_assoc).
      rewrite strip_trim, trim_tight; [|by rewrite all_chars_app,
        ?H1, ?H2, ?andb_true_r; apply all_int_space_space..|done].
      rewrite !contains_app in Hc.
      apply orb_false_iff in Hc as [_ [Hc _]%orb_false_iff].
      rewrite split_on_absent by done.
      destruct (Hr "" eq_refl) as [_ Hcore%py_int_int_text].
      change ("" ++ core) with core in Hcore. by rewrite Hcore.
    + destruct Hit as (a & b & -> & Ha & Hca & Hb & Hcb).
      destruct (two_numbers_read "-" w1 a b w2 x y H1 H2 Ha Hb Hca Hcb)
        as (a' & b' & Hs & Hx & Hy).
      rewrite (string_app_assoc a) in *.
      change (String "-" b ++ w2) with (String "-" (b ++ w2)).
      change (String "-" b ++ w2) with (String "-" (b ++ w2)) in Hs.
      by rewrite Hs, Hx, Hy.
Qed.

(** The move texts are exactly those [parse_move] reads. *)
Lemma parse_move_move_text text source target :
  parse_move text = Some (source, target)
  ↔ ∃ x y, move_text text x y ∧ source = x - 1 ∧ target = y - 1.
Proof.
  unfold parse_move, move_text. split.
  - destruct (split_on "," (strip text)) as [|a [|b [|c l]]] eqn:Hs; [done..| |done].
    destruct (py_int a) as [x|] eqn:Hx; [|done].
    destruct (py_int b) as [y|] eqn:Hy; [|done]. intros [= <- <-].
    destruct (two_numbers_text "," text a b x y Hs Hx Hy)
      as (w1 & w2 & Ht & H1 & H2 & Ha & Hb & _).
    exists x, y. split; [|done]. by exists w1, a, b, w2.
  - intros (x & y & (w1 & a & b & w2 & -> & H1 & H2 & Ha & Hb) & -> & ->).
    destruct (two_numbers_read "," w1 a b w2 x y H1 H2 Ha Hb)
      as (a' & b' & Hs & Hx & Hy); [by apply (int_text_contains _ _ x)
                                   |by apply (int_text_contains _ _ y)|].
    change (String "," b ++ w2) with (String "," (b ++ w2)).
    change (String "," b ++ w2) with (String "," (b ++ w2)) in Hs.
    by rewrite Hs, Hx, Hy.
Qed.

End Fields.

Lemma is_Some_read_item segment :
  is_Some (read_item segment) ↔ ∃ it, item_text segment it.
Proof.
  split; intros [it Hit]; exists it; by apply read_item_item_text.
Qed.

(** Property X5.  Among the texts of code points below 256, the range
    parser raises exactly on those in which some comma-separated
    segment of some semicolon-separated part is not an item text, and
    succeeds exactly on those in which every segment is one. *)
Theorem parse_page_groups_None ranges_text :
  (parse_page_groups ranges_text = None
   ↔ ∃ part segment,
       part ∈ split_on ";" ranges_text ∧ segment ∈ split_on "," part
       ∧ ∀ it, ¬ item_text segment it)
  ∧ (is_Some (parse_page_groups ranges_text)
     ↔ Forall (fun part =>
                 Forall (fun segment => ∃ it, item_text segment it)
                        (split_on "," part))
              (split_on ";" ranges_text)).
Proof.
  assert (well_formed ranges_text
          ↔ Forall (fun part =>
                      Forall (fun segment => ∃ it, item_text segment it)
                             (split_on "," part))
                   (split_on ";" ranges_text)) as Hwf.
  { unfold well_formed. apply Forall_proper; [|done]. intros part.
    apply Forall_proper; [|done]. intros segment. apply is_Some_read_item. }
  split.
  - rewrite parse_page_groups_fails. unfold well_formed. split.
    + intros Hnot. apply not_Forall_Exists in Hnot; [|apply _].
      apply Exists_exists in Hnot as (part & Hpart & Hnot). simpl in Hnot.
      apply not_Forall_Exists in Hnot; [|apply _].
      apply Exists_exists in Hnot as (segment & Hseg & Hnot). simpl in Hnot.
      exists part, segment. split_and!; [done..|].
      intros it Hit. apply Hnot, is_Some_read_item. by exists it.
    + intros (part & segment & Hpart & Hseg & Hnot) Hall.
      rewrite Forall_forall in Hall. specialize (Hall part Hpart).
      rewrite Forall_forall in Hall. specialize (Hall segment Hseg).
      apply is_Some_read_item in Hall as [it Hit]. by apply (Hnot it).
  - rewrite <- Hwf, <- not_eq_None_Some, parse_page_groups_fails.
    split; [|tauto]. intros Hnn.
    destruct (parse_page_groups ranges_text) as [groups|] eqn:Hp.
    + destruct (decide (well_formed ranges_text)) as [|Hno]; [done|].
      apply parse_page_groups_fails in Hno. congruence.
    + exfalso. apply Hnn. by apply parse_page_groups_fails.
Qed.


(** ** Navigation and opening *)

Section Navigation.
Context {Page : Type}.
Implicit Types (st : PDFApp Page) (d : Document Page).

Lemma display_page_state st render_ok :
  state_of (display_page st render_ok) = st.
Proof.
  unfold display_page. destruct (truthy _) as [[|]|]; try done. simpl.
  by destruct (current_page st), render_ok.
Qed.

Lemma page_valid_set st d p :
  current_pdf st = Some d → is_closed d = false →
  0 ≤ p < Z.of_nat (length (pages d)) →
  page_valid (set_current_page st (Some p)).
Proof. intros Hd Hc Hp. by exists d, p. Qed.

Lemma page_valid_truthy st d :
  page_valid st → current_pdf st = Some d → truthy (Some d) = Some true.
Proof.
  intros (d' & p & Hd & Hc & _ & Hp) Hd'. rewrite Hd in Hd'. injection Hd' as <-.
  apply truthy_open; [done|]. intros E. rewrite E in Hp. simpl in Hp. lia.
Qed.

(** Property X11.  While a page of an open document is shown, the
    previous and next buttons, the page field with any text and a
    click on the thumbnail of an existing page keep the current page
    inside the document, and change neither the document nor the move
    history. *)
Theorem navigation_stays_in_document st text page_num render_ok :
  page_valid st →
  0 ≤ page_num < Z.of_nat (length (pages_of st)) →
  Forall (fun st' => page_valid st'
                     ∧ current_pdf st' = current_pdf st
                     ∧ move_history st' = move_history st
                     ∧ history_index st' = history_index st)
    [state_of (prev_page st render_ok);
     state_of (next_page st render_ok);
     state_of (go_to_page st text render_ok);
     state_of (thumbnail_clicked st page_num render_ok)].
Proof.
  intros Hv Hnum. pose proof Hv as (d & p & Hd & Hc & Hp & Hrange).
  pose proof (page_valid_truthy st d Hv Hd) as Ht.
  unfold pages_of in Hnum. rewrite Hd in Hnum.
  repeat apply Forall_cons_2; [| | | |constructor].
  - unfold prev_page. rewrite Hd, Ht, Hp. cbn [andb].
    destruct (p >? 0) eqn:Hpos; [|done]. rewrite display_page_state.
    rewrite Z.gtb_ltb in Hpos. apply Z.ltb_lt in Hpos.
    split; [|done]. apply (page_valid_set st d); [done..|lia].
  - unfold next_page. rewrite Hd, Ht, Hp.
    destruct (p <? _) eqn:Hlt; [|done]. rewrite display_page_state.
    apply Z.ltb_lt in Hlt.
    split; [|done]. apply (page_valid_set st d); [done..|lia].
  - unfold go_to_page, reset_page_input. rewrite Hd, Ht, Hp.
    destruct (py_int text) as [n|]; [|done].
    destruct (_ && _) eqn:Hin; [|done]. rewrite display_page_state.
    apply andb_true_iff in Hin as [?%Z.leb_le ?%Z.ltb_lt].
    split; [|done]. apply (page_valid_set st d); [done..|lia].
  - unfold thumbnail_clicked. rewrite Hd, Ht, display_page_state.
    split; [|done]. by apply (page_valid_set st d).
Qed.

Lemma set_current_page_same st p :
  current_page st = Some p → set_current_page st (Some p) = st.
Proof. destruct st. simpl. by intros ->. Qed.

(** Property X12.  Inside the document next and previous are inverse
    to each other: below the last page next moves one page forward
    and previous brings the session back, above the first page
    likewise with the roles swapped; next on the last page and
    previous on the first page do nothing. *)
Theorem next_prev_round_trip st d p render_ok render_ok' :
  current_pdf st = Some d → is_closed d = false →
  current_page st = Some p →
  0 ≤ p < Z.of_nat (length (pages d)) →
  (p < Z.of_nat (length (pages d)) - 1 →
     current_page (state_of (next_page st render_ok)) = Some (p + 1)
     ∧ state_of (prev_page (state_of (next_page st render_ok)) render_ok') = st)
  ∧ (0 < p →
     current_page (state_of (prev_page st render_ok)) = Some (p - 1)
     ∧ state_of (next_page (state_of (prev_page st render_ok)) render_ok') = st)
  ∧ (p = Z.of_nat (length (pages d)) - 1 →
     next_page st render_ok = Returned Silent st)
  ∧ (p = 0 → prev_page st render_ok = Returned Silent st).
Proof.
  intros Hd Hc Hp Hrange.
  assert (truthy (Some d) = Some true) as Ht.
  { apply truthy_open; [done|]. intros E. rewrite E in Hrange.
    simpl in Hrange. lia. }
  split_and!.
  - intros Hlt. unfold next_page at 1 2. rewrite Hd, Ht, Hp.
    assert ((p <? Z.of_nat (length (pages d)) - 1) = true) as ->
      by (by apply Z.ltb_lt).
    rewrite display_page_state. split; [done|].
    unfold prev_page. cbn [set_current_page current_pdf current_page].
    rewrite Hd, Ht. cbn [andb].
    assert ((p + 1 >? 0) = true) as ->
      by (rewrite Z.gtb_ltb; apply Z.ltb_lt; lia).
    rewrite display_page_state. unfold set_current_page. simpl.
    replace (p + 1 - 1) with p by lia.
    destruct st. simpl in *. by subst.
  - intros Hpos. unfold prev_page at 1 2. rewrite Hd, Ht, Hp. cbn [andb].
    assert ((p >? 0) = true) as ->
      by (rewrite Z.gtb_ltb; by apply Z.ltb_lt).
    rewrite display_page_state. split; [done|].
    unfold next_page. cbn [set_current_page current_pdf current_page].
    rewrite Hd, Ht.
    assert ((p - 1 <? Z.of_nat (length (pages d)) - 1) = true) as ->
      by (apply Z.ltb_lt; lia).
    rewrite display_page_state. unfold set_current_page. simpl.
    replace (p - 1 + 1) with p by lia.
    destruct st. simpl in *. by subst.
  - intros ->. unfold next_page. rewrite Hd, Ht, Hp.
    by rewrite Z.ltb_irrefl.
  - intros ->. unfold prev_page. by rewrite Hd, Ht, Hp.
Qed.

Lemma py_int_None text : py_int text = None ↔ ∀ v, ¬ int_text text v.
Proof.
  split.
  - intros Hn v Hv%py_int_int_text. congruence.
  - intros Hno. destruct (py_int text) as [v|] eqn:Hv; [|done].
    by apply py_int_int_text, Hno in Hv.
Qed.

Lemma go_to_page_in_range (n len : Z) :
  (0 <=? n - 1) && (n - 1 <? len) = true ↔ 1 ≤ n ≤ len.
Proof. rewrite andb_true_iff, Z.leb_le, Z.ltb_lt. lia. Qed.

(** Property X13.  With a page of an open document shown, the page
    field, holding a text of code points below 256, goes to page
    [v - 1] when its text is a number text for a [v] between 1 and
    the page count; a number text for any other [v] gives the
    invalid-page warning and a text that is no number text the
    valid-number warning, both leaving the session as it was.  The
    current page changes only in the first case. *)
Theorem go_to_page_spec st d p text render_ok :
  current_pdf st = Some d → is_closed d = false → pages d ≠ [] →
  current_page st = Some p →
  let n := Z.of_nat (length (pages d)) in
  (∀ v, int_text text v → 1 ≤ v ≤ n →
        state_of (go_to_page st text render_ok)
        = set_current_page st (Some (v - 1)))
  ∧ (∀ v, int_text text v → ¬ (1 ≤ v ≤ n) →
          go_to_page st text render_ok
          = Returned (Warning "Invalid page number") st)
  ∧ ((∀ v, ¬ int_text text v) →
     go_to_page st text render_ok
     = Returned (Warning "Please enter a valid page number") st)
  ∧ (current_page (state_of (go_to_page st text render_ok)) ≠ Some p →
     ∃ v, int_text text v ∧ 1 ≤ v ≤ n ∧ v - 1 ≠ p).
Proof.
  intros Hd Hc Hne Hp n. unfold go_to_page, reset_page_input.
  rewrite Hd, truthy_open, Hp by done. fold n. split_and!.
  - intros v Hv%py_int_int_text Hin. rewrite Hv.
    apply go_to_page_in_range in Hin. rewrite Hin.
    apply display_page_state.
  - intros v Hv%py_int_int_text Hout. rewrite Hv.
    destruct (_ && _) eqn:Hin; [|done].
    by apply go_to_page_in_range in Hin.
  - intros Hno%py_int_None. by rewrite Hno.
  - destruct (py_int text) as [v|] eqn:Hv; [|done].
    destruct (_ && _) eqn:Hin; [|done].
    apply go_to_page_in_range in Hin. rewrite display_page_state. simpl.
    intros Hch. exists v. split_and!; [by apply py_int_int_text|lia..|].
    congruence.
Qed.

(** *** Opening *)

Lemma close_pdf_healthy st :
  healthy st → current_pdf (state_of (close_pdf st)) = None.
Proof.
  intros [Hnone|(d & Hd & Hc & Hne)]; unfold close_pdf.
  - by rewrite Hnone.
  - by rewrite Hd, truthy_open.
Qed.

(** Property X14.  A file whose first four bytes are not [%PDF], or
    that cannot be read, is refused by [open_pdf] with a message and
    the session, current document included, is left exactly as it
    was. *)
Theorem open_pdf_rejects_bad_signature st fname read4 ld :
  read4 fname ≠ Some PDF_MAGIC_NUMBER →
  state_of (open_pdf st fname read4 ld) = st
  ∧ (fname ≠ EmptyString →
     open_pdf st fname read4 ld
     = Returned (match read4 fname with
                 | Some _ => Warning "Not a valid PDF file"
                 | None => Critical "Error validating PDF: "
                 end) st).
Proof.
  intros Hbad. unfold open_pdf, _validate_pdf_file.
  destruct (String.eqb_spec fname "") as [|Hname]; [done|].
  destruct (read4 fname) as [head|]; [|done].
  destruct (String.eqb_spec head PDF_MAGIC_NUMBER) as [->|]; done.
Qed.

(** Property X15.  For a file with the PDF signature picked while the
    session holds no document or a sound one: a successful load leaves
    the new document open on its first page; a load that fails is
    reported, the previous document having been closed first.  After
    a failure at opening no document is open.  After a failure at the
    PDF check or at the first display no document is open if the file
    has pages; a file without pages stays in the session, open, since
    [close_pdf] closes only a document whose truth value, its page
    count, is not zero. *)
Theorem open_pdf_outcome st fname read4 ld :
  fname ≠ EmptyString → read4 fname = Some PDF_MAGIC_NUMBER → healthy st →
  let opened pgs := {| name := fname; pages := pgs; is_closed := false |} in
  match ld with
  | OpensPdf pgs true =>
      ∃ st', open_pdf st fname read4 ld = Returned Silent st'
             ∧ current_pdf st' = Some (opened pgs)
             ∧ current_page st' = Some 0
  | OpensPdf pgs false | OpensNonPdf pgs =>
      ∃ st', open_pdf st fname read4 ld
             = Returned (Critical "Error loading PDF: ") st'
             ∧ (pgs ≠ [] → current_pdf st' = None ∧ current_page st' = None)
             ∧ (pgs = [] → current_pdf st' = Some (opened []))
  | OpenFails =>
      ∃ st', open_pdf st fname read4 ld
             = Returned (Critical "Error loading PDF: ") st'
             ∧ current_pdf st' = None
  end.
Proof.
  intros Hname Hmagic Hh opened. unfold open_pdf, _validate_pdf_file.
  assert (String.eqb fname "" = false) as -> by (by apply String.eqb_neq).
  rewrite Hmagic. cbn.
  pose proof (close_pdf_healthy st Hh) as Hclosed.
  unfold _load_and_display_pdf.
  set (st0 := state_of (close_pdf st)) in *.
  assert (∀ st1 pgs, current_pdf st1 = Some (opened pgs) →
            (pgs ≠ [] → current_pdf (state_of (close_pdf st1)) = None
                        ∧ current_page (state_of (close_pdf st1)) = None)
            ∧ (pgs = [] →
               current_pdf (state_of (close_pdf st1)) = Some (opened []))) as Hcl.
  { intros st1 pgs H1. unfold close_pdf. rewrite H1. split.
    - intros Hne. by rewrite truthy_open.
    - intros ->. simpl. done. }
  destruct ld as [|pgs|pgs [|]].
  - eexists. split; [done|]. apply close_pdf_healthy. by left.
  - eexists. split; [done|]. by apply Hcl.
  - by eexists.
  - eexists. split; [done|]. by apply Hcl.
Qed.

End Navigation.

(** ** Merging *)

Section Merge.
Context {Page : Type}.
Implicit Types (env : merge_env Page) (src out : list Page).

Lemma page_range_all (pre src : list Page) :
  omap (fun i => (pre ++ src) !! Z.to_nat i)
       (seqZ (Z.of_nat (length pre)) (Z.of_nat (length src)))
  = src.
Proof.
  revert pre. induction src as [|x src IH]; intros pre; [done|].
  cbn [length]. rewrite seqZ_cons by lia. cbn [omap list_omap].
  rewrite Nat2Z.id, lookup_app_r, Nat.sub_diag by lia. cbn [lookup list_lookup].
  f_equal.
  replace (Z.succ (Z.of_nat (length pre)))
    with (Z.of_nat (length (pre ++ [x]))) by (rewrite length_app; simpl; lia).
  replace (Z.pred (Z.of_nat (S (length src)))) with (Z.of_nat (length src))
    by lia.
  specialize (IH (pre ++ [x])). by rewrite <- app_assoc in IH.
Qed.

(** [insert_pdf] with its default range appends the whole source. *)
Lemma insert_pdf_whole out src : insert_pdf out src (-1) (-1) = out ++ src.
Proof.
  unfold insert_pdf, page_range. f_equal.
  destruct src as [|x src]; [done|].
  set (n := Z.of_nat (length (x :: src))).
  assert (1 ≤ n) by (unfold n; simpl; lia).
  replace (Z.min (Z.max (-1) 0) (n - 1)) with 0 by lia.
  change (-1 <? 0) with true. cbn match.
  replace (Z.min (n - 1) (n - 1)) with (n - 1) by lia.
  assert ((0 <=? n - 1) = true) as -> by (apply Z.leb_le; lia).
  replace (n - 1 - 0 + 1) with n by lia.
  apply (page_range_all [] (x :: src)).
Qed.

Lemma merge_loop_None env paths :
  foldl (fun acc pdf_path =>
           output_pdf ← acc;
           pdf ← open_doc env pdf_path;
           Some (insert_pdf output_pdf pdf (-1) (-1)))
        None paths = None.
Proof. by induction paths. Qed.

Lemma merge_loop env paths out :
  match mapM (open_doc env) paths with
  | Some srcs =>
      foldl (fun acc pdf_path =>
               output_pdf ← acc;
               pdf ← open_doc env pdf_path;
               Some (insert_pdf output_pdf pdf (-1) (-1)))
            (Some out) paths = Some (out ++ concat srcs)
  | None =>
      foldl (fun acc pdf_path =>
               output_pdf ← acc;
               pdf ← open_doc env pdf_path;
               Some (insert_pdf output_pdf pdf (-1) (-1)))
            (Some out) paths = None
  end.
Proof.
  revert out. induction paths as [|path paths IH]; intros out.
  - simpl. by rewrite app_nil_r.
  - cbn [mapM foldl mbind option_bind].
    destruct (open_doc env path) as [src|]; simpl.
    2:{ apply merge_loop_None. }
    rewrite insert_pdf_whole. specialize (IH (out ++ src)).
    destruct (mapM (open_doc env) paths) as [srcs|]; simpl; [|done].
    by rewrite IH, <- app_assoc.
Qed.

Lemma merge_sources_spec env paths :
  merge_sources env paths
  = (fun srcs => concat srcs) <$> mapM (open_doc env) paths.
Proof.
  unfold merge_sources. pose proof (merge_loop env paths []) as H.
  by destruct (mapM (open_doc env) paths).
Qed.

(** Property X18.  With at least two files in the merge list, each of
    which opens with at least one page, a name given in the save
    dialog and the save succeeding, the merged file holds the pages of
    the sources in list order and the merge list is emptied. *)
Theorem merge_concatenates_in_order (merge_list : list string) env
    (srcs : list (list Page)) :
  (2 ≤ length merge_list)%nat →
  Forall2 (fun pdf_path src => open_doc env pdf_path = Some src ∧ src ≠ [])
          merge_list srcs →
  save_name env ≠ EmptyString → merge_save_ok env = true →
  merge_pdfs merge_list env
  = {| merge_report := Information "PDFs merged successfully!";
       merge_list_after := [];
       merge_written := Some (save_name env, concat srcs) |}.
Proof.
  intros Hlen Hsrcs Hname Hsave.
  assert (mapM (open_doc env) merge_list = Some srcs) as Hopen.
  { apply mapM_Some. eapply Forall2_impl; [exact Hsrcs|]. by intros ?? [? _]. }
  assert (can_save (concat srcs) = true) as Hcan.
  { destruct Hsrcs as [|p src ps srcs' [_ Hne] _]; [simpl in Hlen; lia|].
    simpl. by destruct src. }
  unfold merge_pdfs.
  destruct merge_list as [|p1 [|p2 ps]]; [simpl in Hlen; lia..|].
  rewrite merge_sources_spec, Hopen. cbn [fmap option_fmap option_map].
  assert (String.eqb (save_name env) "" = false) as ->
    by (by apply String.eqb_neq).
  by rewrite Hcan, Hsave.
Qed.

(** Property X19.  A merge writes a file only when the list has at
    least two entries, all of them open and a name was given; the file
    then holds the sources' pages in order and the list is emptied.
    Whenever no file is written the merge list is left as it was. *)
Theorem merge_all_or_nothing (merge_list : list string) env :
  match merge_written (merge_pdfs merge_list env) with
  | Some (fname, output_pdf) =>
      (2 ≤ length merge_list)%nat
      ∧ fname = save_name env ∧ fname ≠ EmptyString
      ∧ (∃ srcs, Forall2 (fun pdf_path src => open_doc env pdf_path = Some src)
                         merge_list srcs
                 ∧ output_pdf = concat srcs)
      ∧ output_pdf ≠ []
      ∧ merge_list_after (merge_pdfs merge_list env) = []
  | None => merge_list_after (merge_pdfs merge_list env) = merge_list
  end.
Proof.
  unfold merge_pdfs. destruct merge_list as [|p1 [|p2 ps]]; [done..|].
  rewrite merge_sources_spec.
  destruct (mapM (open_doc env) (p1 :: p2 :: ps)) as [srcs|] eqn:Hopen;
    [|done].
  cbn [fmap option_fmap option_map].
  destruct (String.eqb_spec (save_name env) "") as [|Hname]; [done|].
  destruct (can_save (concat srcs)) eqn:Hcan; [|done].
  destruct (merge_save_ok env); [|done]. cbn.
  split_and!; try done.
  - lia.
  - exists srcs. split; [|done]. by apply mapM_Some.
  - by destruct (concat srcs).
Qed.

End Merge.

(** *** The merge list *)

Lemma add_one_spec read4 (ml refused : list string) fname :
  add_one read4 (ml, refused) fname
  = if decide (read4 fname = Some PDF_MAGIC_NUMBER)
    then (if decide (fname ∈ ml) then ml else ml ++ [fname], refused)
    else (ml, refused ++ [fname]).
Proof.
  unfold add_one. destruct (read4 fname) as [head|].
  - destruct (String.eqb_spec head PDF_MAGIC_NUMBER) as [->|Hne].
    + rewrite decide_True by done. by destruct (decide (fname ∈ ml));
        [rewrite bool_decide_true|rewrite bool_decide_false].
    + rewrite decide_False; [done|]. by intros [= ->].
  - by rewrite decide_False.
Qed.

Lemma add_to_merge_gen read4 (fnames ml refused : list string) :
  NoDup ml →
  let r := foldl (add_one read4) (ml, refused) fnames in
  NoDup r.1 ∧ ml `prefix_of` r.1
  ∧ (∀ f, f ∈ r.1 ↔ f ∈ ml ∨ (f ∈ fnames ∧ read4 f = Some PDF_MAGIC_NUMBER))
  ∧ r.2 = refused
            ++ filter (fun f => read4 f ≠ Some PDF_MAGIC_NUMBER) fnames.
Proof.
  revert ml refused. induction fnames as [|fname fnames IH];
    intros ml refused Hnd; cbn zeta.
  - simpl. split_and!; [done|done| |by rewrite app_nil_r].
    intros f. split; [by left|]. intros [|[Hin _]]; [done|].
    by apply elem_of_nil in Hin.
  - cbn [foldl]. rewrite add_one_spec.
    destruct (decide (read4 fname = Some PDF_MAGIC_NUMBER)) as [Hok|Hbad].
    + rewrite filter_cons_False by (by intros ?).
      destruct (decide (fname ∈ ml)) as [Hin|Hnin].
      * destruct (IH ml refused Hnd) as (H1 & H2 & H3 & H4).
        split_and!; [done..| |done].
        intros f. rewrite H3, elem_of_cons. split.
        { intros [|[? ?]]; [by left|right; by split; [right|]]. }
        intros [|[[->|] ?]]; [by left|by left|by right].
      * assert (NoDup (ml ++ [fname])) as Hnd'.
        { apply NoDup_app. split_and!; [done| |apply NoDup_singleton].
          intros x Hx ->%list_elem_of_singleton. done. }
        destruct (IH (ml ++ [fname]) refused Hnd') as (H1 & H2 & H3 & H4).
        split_and!; [done| | |done].
        -- etrans; [|exact H2]. by apply prefix_app_r.
        -- intros f. rewrite H3, elem_of_app, list_elem_of_singleton, elem_of_cons.
           split.
           { intros [[?| ->]|[? ?]];
               [by left|right; by split; [left|]|right; by split; [right|]]. }
           intros [|[[->|] ?]];
             [by left; left|by left; right|by right].
    + rewrite filter_cons_True by done.
      destruct (IH ml (refused ++ [fname]) Hnd) as (H1 & H2 & H3 & H4).
      split_and!; [done..| |by rewrite H4, <- app_assoc].
      intros f. rewrite H3, elem_of_cons. split.
      { intros [|[? ?]]; [by left|right; by split; [right|]]. }
      intros [|[[->|] ?]]; [by left|done|by right].
Qed.

(** Property X16.  Adding files to a duplicate-free merge list keeps it
    duplicate-free and keeps the earlier entries in place; afterwards
    the list holds exactly the earlier entries and the picked files
    with the PDF signature, and exactly the other picked files are
    refused. *)
Theorem add_to_merge_keeps_list_clean (merge_list fnames : list string) read4 :
  NoDup merge_list →
  let r := add_to_merge merge_list fnames read4 in
  NoDup r.1
  ∧ merge_list `prefix_of` r.1
  ∧ (∀ f, f ∈ r.1 ↔
          f ∈ merge_list ∨ (f ∈ fnames ∧ read4 f = Some PDF_MAGIC_NUMBER))
  ∧ r.2 = filter (fun f => read4 f ≠ Some PDF_MAGIC_NUMBER) fnames.
Proof.
  intros Hnd. apply (add_to_merge_gen read4 fnames merge_list [] Hnd).
Qed.

Lemma py_pop_Some {A} (l l' : list A) (row : Z) :
  py_pop l row = Some l' →
  ∃ i : nat, (i < length l)%nat ∧ l' = delete i l
             ∧ (0 ≤ row → i = Z.to_nat row)
             ∧ (row < 0 → Z.of_nat i = Z.of_nat (length l) + row).
Proof.
  unfold py_pop. intros H.
  destruct (_ && _) eqn:E1 in H.
  - apply andb_true_iff in E1 as [?%Z.leb_le ?%Z.ltb_lt]. injection H as <-.
    exists (Z.to_nat row). split_and!; [lia|done|done|lia].
  - destruct (_ && _) eqn:E2 in H; [|done].
    apply andb_true_iff in E2 as [?%Z.leb_le ?%Z.ltb_lt]. injection H as <-.
    exists (Z.to_nat (Z.of_nat (length l) + row)).
    split_and!; [lia|done|lia|lia].
Qed.

(** Property X17.  Removing row [row] of the merge list deletes exactly
    that entry when [0 <= row < len]; a row at or beyond the end, or
    below [-len], raises; whenever a removal succeeds the list is one
    shorter, the remaining entries keep their order and no duplicate
    appears. *)
Theorem remove_from_merge_spec (merge_list : list string) (row : Z) :
  (0 ≤ row < Z.of_nat (length merge_list) →
   remove_from_merge merge_list row
   = Some (delete (Z.to_nat row) merge_list))
  ∧ (Z.of_nat (length merge_list) ≤ row ∨ row < - Z.of_nat (length merge_list) →
     remove_from_merge merge_list row = None)
  ∧ (∀ ml', remove_from_merge merge_list row = Some ml' →
       S (length ml') = length merge_list
       ∧ ml' `sublist_of` merge_list
       ∧ (NoDup merge_list → NoDup ml')).
Proof.
  unfold remove_from_merge. split_and!.
  - intros Hrow. unfold py_pop.
    assert ((0 <=? row) && (row <? Z.of_nat (length merge_list)) = true) as ->;
      [|done].
    apply andb_true_intro. split; [apply Z.leb_le|apply Z.ltb_lt]; lia.
  - intros Hrow. unfold py_pop.
    assert ((0 <=? row) && (row <? Z.of_nat (length merge_list)) = false) as ->.
    { apply andb_false_iff. destruct Hrow; [right; apply Z.ltb_ge|left; apply Z.leb_gt]; lia. }
    assert ((- Z.of_nat (length merge_list) <=? row) && (row <? 0) = false) as ->;
      [|done].
    apply andb_false_iff.
    destruct Hrow; [right; apply Z.ltb_ge|left; apply Z.leb_gt]; lia.
  - intros ml' (i & Hi & -> & _)%py_pop_Some.
    split_and!; [|apply sublist_delete|].
    + rewrite length_delete by (by apply lookup_lt_is_Some_2). lia.
    + intros Hnd. eapply sublist_NoDup; [exact Hnd|apply sublist_delete].
Qed.

(** ** Input checks of a move, and the closed session *)

Section Inert.
Context {Page : Type}.
Implicit Types (st : PDFApp Page) (d : Document Page).

Lemma parse_move_None text :
  parse_move text = None ↔ ∀ x y, ¬ move_text text x y.
Proof.
  split.
  - intros Hn x y Hxy.
    assert (parse_move text = Some (x - 1, y - 1)); [|congruence].
    apply parse_move_move_text. by exists x, y.
  - intros Hno. destruct (parse_move text) as [[s t]|] eqn:Hp; [|done].
    apply parse_move_move_text in Hp as (x & y & Hxy & _).
    by apply Hno in Hxy.
Qed.

Lemma move_page_out_of_range (source target len : Z) :
  (source <? 0) || (source >=? len) || (target <? 0) || (target >=? len) = false
  ↔ (1 ≤ source + 1 ≤ len ∧ 1 ≤ target + 1 ≤ len).
Proof.
  rewrite !Z.geb_leb, !orb_false_iff, !Z.ltb_ge, !Z.leb_gt. lia.
Qed.

(** Property X21.  With a document open, a text of the move field, of
    code points below 256, that is not a move text, or one whose
    numbers are not both pages of the document, gets the format
    warning; a move text naming the same page twice is a silent
    no-op; in all three cases the session stays as it was, whatever
    the environment.  The session changes only for a move text naming
    two different pages of the document. *)
Theorem move_page_input_validation st d text f :
  current_pdf st = Some d → is_closed d = false → pages d ≠ [] →
  let n := Z.of_nat (length (pages d)) in
  ((∀ x y, ¬ move_text text x y) →
   move_page st text f = Returned (Warning move_format_warning) st)
  ∧ (∀ x y, move_text text x y → ¬ (1 ≤ x ≤ n ∧ 1 ≤ y ≤ n) →
       move_page st text f = Returned (Warning move_format_warning) st)
  ∧ (∀ x, move_text text x x → 1 ≤ x ≤ n →
       move_page st text f = Returned Silent st)
  ∧ (state_of (move_page st text f) ≠ st →
     ∃ x y, move_text text x y ∧ 1 ≤ x ≤ n ∧ 1 ≤ y ≤ n ∧ x ≠ y).
Proof.
  intros Hd Hc Hne n. unfold move_page. rewrite Hd, truthy_open by done.
  fold n. split_and!.
  - intros Hno%parse_move_None. by rewrite Hno.
  - intros x y Hxy Hout.
    assert (parse_move text = Some (x - 1, y - 1)) as ->.
    { apply parse_move_move_text. by exists x, y. }
    destruct (_ || _) eqn:Hr; [done|].
    apply move_page_out_of_range in Hr. exfalso. apply Hout. lia.
  - intros x Hxx Hin.
    assert (parse_move text = Some (x - 1, x - 1)) as ->.
    { apply parse_move_move_text. by exists x, x. }
    assert ((x - 1 <? 0) || (x - 1 >=? n) || (x - 1 <? 0) || (x - 1 >=? n)
            = false) as ->.
    { apply move_page_out_of_range. lia. }
    by rewrite Z.eqb_refl.
  - destruct (parse_move text) as [[source target]|] eqn:Hp; [|done].
    apply parse_move_move_text in Hp as (x & y & Hxy & -> & ->).
    destruct (_ || _) eqn:Hr; [done|].
    apply move_page_out_of_range in Hr.
    destruct (x - 1 =? y - 1) eqn:Heq; [done|]. apply Z.eqb_neq in Heq.
    intros _. exists x, y. split_and!; [done|lia..].
Qed.

(** Property X22.  Closing a sound session succeeds silently and leaves
    no document and, if one was open, no current page; closing again
    changes nothing, and until a document is loaded every document
    operation is inert: navigation, undo and redo do nothing, a move
    and a split only ask to open a PDF, and nothing is written. *)
Theorem closed_session_is_inert st :
  healthy st →
  ∃ st', close_pdf st = Returned Silent st'
         ∧ current_pdf st' = None
         ∧ (current_pdf st ≠ None → current_page st' = None)
         ∧ close_pdf st' = Returned Silent st'
         ∧ (∀ render_ok text page_num,
              prev_page st' render_ok = Returned Silent st'
              ∧ next_page st' render_ok = Returned Silent st'
              ∧ go_to_page st' text render_ok = Returned Silent st'
              ∧ thumbnail_clicked st' page_num render_ok = Returned Silent st'
              ∧ display_page st' render_ok = Returned Silent st')
         ∧ (∀ f text,
              undo_page st' f = Returned Silent st'
              ∧ redo_page st' f = Returned Silent st'
              ∧ move_page st' text f
                = Returned (Warning "Please open a PDF first") st')
         ∧ (∀ text env,
              split_pdf st' text env
              = SplitReturned (Warning "Please open a PDF first") []).
Proof.
  intros Hh.
  assert (∃ st', close_pdf st = Returned Silent st' ∧ current_pdf st' = None
                 ∧ (current_pdf st ≠ None → current_page st' = None))
    as (st' & Hclose & Hnone & Hpage).
  { destruct Hh as [Hno|(d & Hd & Hc & Hne)]; unfold close_pdf.
    - rewrite Hno. by exists st.
    - rewrite Hd, truthy_open by done. by eexists. }
  exists st'. split_and!; [done..| | | |].
  - unfold close_pdf. by rewrite Hnone.
  - intros render_ok text page_num.
    unfold prev_page, next_page, go_to_page, thumbnail_clicked, display_page.
    rewrite Hnone. cbn. by destruct (current_page st').
  - intros f text. unfold undo_page, redo_page, move_page.
    by rewrite Hnone.
  - intros text env. unfold split_pdf. by rewrite Hnone.
Qed.

End Inert.

(** The extension is cut at the last dot of the whole path: with a
    dotted directory and no extension the folder is named after a
    piece of the directory. *)
Example split_base_name_examples :
  split_base_name "/home/u/report.final.pdf" = "report.final"%string
  ∧ split_base_name "C:\docs\scan.pdf" = "scan"%string
  ∧ split_base_name "/home/u.v/report" = "u"%string.
Proof. by vm_compute. Qed.

Example merge_row_name_examples :
  merge_row_name "/home/u/a.pdf" = "a.pdf"%string
  ∧ merge_row_name "C:\docs/b.pdf" = "b.pdf"%string
  ∧ merge_row_name "c.pdf" = "c.pdf"%string.
Proof. by vm_compute. Qed.

(** ** Instances of the further properties *)

Lemma redo_after_undo_restores_witness :
  active_move st_moved = Some (0, 1)
  ∧ ∃ st1, undo_page st_moved NoFault = Returned Silent st1
           ∧ history_index st1 = -1
           ∧ redo_page st1 NoFault = Returned Silent st_moved.
Proof.
  split; [reflexivity|].
  apply (redo_after_undo_restores st_moved two_pages 0 1);
    [reflexivity|reflexivity|reflexivity|simpl; lia|simpl; lia].
Defined.

Lemma undo_after_redo_restores_witness :
  move_history st_undone !! 0%nat = Some (0, 1)
  ∧ ∃ st1, redo_page st_undone NoFault = Returned Silent st1
           ∧ history_index st1 = 0
           ∧ undo_page st1 NoFault = Returned Silent st_undone.
Proof.
  split; [reflexivity|].
  apply (undo_after_redo_restores st_undone two_pages 0 1);
    [reflexivity|reflexivity|simpl; lia|reflexivity|simpl; lia|simpl; lia].
Defined.

Lemma move_page_fault_keeps_history_witness :
  FaultSave ≠ NoFault
  ∧ move_history (state_of (move_page st_moved "2,1" FaultSave)) = [(0, 1)]
  ∧ history_index (state_of (move_page st_moved "2,1" FaultSave)) = 0.
Proof.
  assert (FaultSave ≠ NoFault) as Hf by discriminate.
  split; [exact Hf|].
  exact (move_page_fault_keeps_history st_moved "2,1" FaultSave Hf).
Defined.

Lemma undo_page_fault_keeps_history_witness :
  FaultReplace ≠ NoFault
  ∧ move_history (state_of (undo_page st_moved FaultReplace)) = [(0, 1)]
  ∧ history_index (state_of (undo_page st_moved FaultReplace)) = 0.
Proof.
  assert (FaultReplace ≠ NoFault) as Hf by discriminate.
  split; [exact Hf|].
  exact (undo_page_fault_keeps_history st_moved FaultReplace Hf).
Defined.

Lemma print_groups_well_formed_witness :
  print_groups [[SNumber "1"; SNumber "4"]; [SRange "2" "3"]] = "1,4;2-3"%string
  ∧ well_formed "1,4;2-3"
  ∧ Forall2 (fun part g =>
       mapM read_item (split_on "," part) = Some (item_of <$> g))
      ["1,4"; "2-3"]%string
      [[SNumber "1"; SNumber "4"]; [SRange "2" "3"]]
  ∧ ∃ page_groups,
      parse_page_groups "1,4;2-3" = Some page_groups
      ∧ Forall2 (fun g group =>
           StronglySorted Z.lt group
           ∧ ∀ p, p ∈ group ↔ ∃ it, it ∈ g ∧ covers (item_of it) p)
          [[SNumber "1"; SNumber "4"]; [SRange "2" "3"]] page_groups.
Proof.
  split; [reflexivity|].
  assert (∀ s, s = "1"%string ∨ s = "2"%string ∨ s = "3"%string
               ∨ s = "4"%string → numeral s) as Hnum.
  { intros s Hs. unfold numeral, int_max_str_digits.
    destruct Hs as [-> |[-> |[-> | ->]]];
      (split_and!; [reflexivity|discriminate|simpl; lia]). }
  apply (print_groups_well_formed
           [[SNumber "1"; SNumber "4"]; [SRange "2" "3"]]); [discriminate|].
  repeat constructor; try discriminate; simpl; try split;
    apply Hnum; tauto.
Defined.

Lemma parse_part_order_irrelevant_witness :
  ∃ group1 group2,
    parse_part "1,2" = Some group1 ∧ parse_part "2,1,2" = Some group2
    ∧ group1 = group2.
Proof.
  assert (parse_part "1,2" = Some [0; 1]) as H1 by (vm_compute; reflexivity).
  assert (parse_part "2,1,2" = Some [0; 1]) as H2 by (vm_compute; reflexivity).
  exists [0; 1], [0; 1]. split_and!; [exact H1|exact H2|].
  apply (parse_part_order_irrelevant "1,2" "2,1,2" [0; 1] [0; 1]
           [Single 1; Single 2] [Single 2; Single 1; Single 2] H1 H2);
    [reflexivity|reflexivity|].
  intros p. split; intros (it & Hin & Hc); exists it; (split; [|exact Hc]);
    rewrite !elem_of_cons in *; tauto.
Defined.

Lemma split_writes_prefix_of_parts_witness :
  parse_page_groups (strip "1;5-2;3") = Some [[0]; []; [2]]
  ∧ files_written (split_pdf st_three "1;5-2;3" env_ok)
    `prefix_of` [(1, [10]%nat); (2, []); (3, [12]%nat)].
Proof.
  assert (parse_page_groups (strip "1;5-2;3") = Some [[0]; []; [2]]) as Hp
    by (vm_compute; reflexivity).
  split; [exact Hp|].
  exact (split_writes_prefix_of_parts st_three three_pages "1;5-2;3" env_ok
           [[0]; []; [2]] eq_refl Hp).
Defined.

Lemma split_writes_all_parts_witness :
  parse_page_groups (strip "1-2;3") = Some [[0; 1]; [2]]
  ∧ split_pdf st_three "1-2;3" env_ok
    = SplitReturned (Information "PDF split successfully into 2 parts!")
        [(1, [10; 11]%nat); (2, [12]%nat)].
Proof.
  assert (parse_page_groups (strip "1-2;3") = Some [[0; 1]; [2]]) as Hp
    by (vm_compute; reflexivity).
  split; [exact Hp|].
  refine (proj1 (split_writes_all_parts st_three three_pages "1-2;3" env_ok
                   [[0; 1]; [2]] eq_refl eq_refl Hp eq_refl _ _ eq_refl _)).
  - repeat constructor; discriminate.
  - discriminate.
  - intros j. reflexivity.
Defined.

Lemma navigation_stays_in_document_witness :
  page_valid st_three
  ∧ page_valid (state_of (next_page st_three true))
  ∧ page_valid (state_of (go_to_page st_three "3" false)).
Proof.
  assert (page_valid st_three) as Hv.
  { exists three_pages, 0. split_and!; [reflexivity..|simpl; lia]. }
  pose proof (navigation_stays_in_document st_three "3" 1 true Hv
                ltac:(simpl; lia)) as H.
  pose proof (navigation_stays_in_document st_three "3" 1 false Hv
                ltac:(simpl; lia)) as H'.
  apply Forall_cons_1 in H as [_ H]. apply Forall_cons_1 in H as [[H _] _].
  apply Forall_cons_1 in H' as [_ H']. apply Forall_cons_1 in H' as [_ H'].
  apply Forall_cons_1 in H' as [[H' _] _].
  split_and!; [exact Hv|exact H|exact H'].
Defined.

Lemma next_prev_round_trip_witness :
  current_page st_three = Some 0
  ∧ current_page (state_of (next_page st_three true)) = Some 1
  ∧ state_of (prev_page (state_of (next_page st_three true)) true) = st_three
  ∧ prev_page st_three true = Returned Silent st_three.
Proof.
  destruct (next_prev_round_trip st_three three_pages 0 true true
              eq_refl eq_refl eq_refl ltac:(simpl; lia))
    as (H1 & _ & _ & H4).
  destruct (H1 ltac:(simpl; lia)) as [Ha Hb].
  split_and!; [reflexivity|exact Ha|exact Hb|exact (H4 eq_refl)].
Defined.

Lemma go_to_page_spec_witness :
  int_text " +3 " 3
  ∧ state_of (go_to_page st_three " +3 " true)
    = set_current_page st_three (Some 2).
Proof.
  assert (int_text " +3 " 3) as Hnum.
  { exists " "%string, "+"%string, "3"%string, " "%string, 3.
    split_and!; [reflexivity..| |right; left; split; reflexivity].
    exists ["3"%string]. unfold int_max_str_digits.
    split_and!; [discriminate| |reflexivity|simpl; lia|reflexivity].
    repeat constructor. discriminate. }
  split; [exact Hnum|].
  destruct (go_to_page_spec st_three three_pages 0 " +3 " true eq_refl eq_refl
              ltac:(discriminate) eq_refl) as (H & _).
  apply (H 3 Hnum). simpl. lia.
Defined.

Lemma open_pdf_rejects_bad_signature_witness :
  read4_demo "notes.txt" ≠ Some PDF_MAGIC_NUMBER
  ∧ open_pdf st_three "notes.txt" read4_demo (OpensPdf [7; 8]%nat true)
    = Returned (Warning "Not a valid PDF file") st_three.
Proof.
  assert (read4_demo "notes.txt" ≠ Some PDF_MAGIC_NUMBER) as Hbad
    by discriminate.
  split; [exact Hbad|].
  exact (proj2 (open_pdf_rejects_bad_signature st_three "notes.txt" read4_demo
                  (OpensPdf [7; 8]%nat true) Hbad) ltac:(discriminate)).
Defined.

Lemma open_pdf_outcome_witness :
  healthy st_three
  ∧ (∃ st', open_pdf st_three "b.pdf" read4_demo (OpensPdf [7; 8]%nat true)
            = Returned Silent st'
            ∧ current_pdf st'
              = Some {| name := "b.pdf"; pages := [7; 8]%nat;
                        is_closed := false |}
            ∧ current_page st' = Some 0)
  ∧ ∃ st', open_pdf st_three "b.pdf" read4_demo (OpensNonPdf [])
           = Returned (Critical "Error loading PDF: ") st'
           ∧ current_pdf st'
             = Some {| name := "b.pdf"; pages := []; is_closed := false |}.
Proof.
  assert (healthy st_three) as Hh.
  { right. exists three_pages. split_and!; [reflexivity..|discriminate]. }
  split; [exact Hh|]. split.
  - exact (open_pdf_outcome st_three "b.pdf" read4_demo
             (OpensPdf [7; 8]%nat true) ltac:(discriminate) eq_refl Hh).
  - destruct (open_pdf_outcome st_three "b.pdf" read4_demo
                (OpensNonPdf []) ltac:(discriminate) eq_refl Hh)
      as (st' & H1 & _ & H3).
    exists st'. split; [exact H1|exact (H3 eq_refl)].
Defined.

Lemma add_to_merge_keeps_list_clean_witness :
  NoDup ["a.pdf"%string]
  ∧ NoDup (add_to_merge ["a.pdf"]%string
             ["b.pdf"; "notes.txt"; "a.pdf"]%string read4_demo).1
  ∧ (add_to_merge ["a.pdf"]%string
       ["b.pdf"; "notes.txt"; "a.pdf"]%string read4_demo).1
    = ["a.pdf"; "b.pdf"]%string.
Proof.
  assert (NoDup ["a.pdf"%string]) as Hnd
    by (apply NoDup_singleton).
  destruct (add_to_merge_keeps_list_clean ["a.pdf"]%string
              ["b.pdf"; "notes.txt"; "a.pdf"]%string read4_demo Hnd)
    as (H1 & _).
  split_and!; [exact Hnd|exact H1|reflexivity].
Defined.

Lemma merge_concatenates_in_order_witness :
  (2 ≤ length ["a.pdf"%string; "b.pdf"%string])%nat
  ∧ merge_pdfs ["a.pdf"; "b.pdf"]%string merge_env_ab
    = {| merge_report := Information "PDFs merged successfully!";
         merge_list_after := [];
         merge_written := Some ("merged.pdf"%string, [1; 2; 3; 4; 5]%nat) |}.
Proof.
  assert (2 ≤ length ["a.pdf"%string; "b.pdf"%string])%nat as Hlen
    by (simpl; lia).
  split; [exact Hlen|].
  apply (merge_concatenates_in_order ["a.pdf"; "b.pdf"]%string merge_env_ab
           [[1; 2]; [3; 4; 5]]%nat Hlen); [|discriminate|reflexivity].
  repeat constructor; discriminate.
Defined.

Lemma move_page_input_validation_witness :
  move_text "2,9" 2 9
  ∧ move_page st_three "2,9" FaultSave
    = Returned (Warning move_format_warning) st_three.
Proof.
  assert (∀ s v, s = "2"%string ∧ v = 2 ∨ s = "9"%string ∧ v = 9 →
                 int_text s v) as Hnum.
  { intros s v Hs.
    exists ""%string, ""%string, s, ""%string, v.
    assert (literal_text s v) as Hlit.
    { exists [s]. unfold int_max_str_digits.
      destruct Hs as [[-> ->]|[-> ->]];
        (split_and!; [discriminate| |reflexivity|simpl; lia|reflexivity]);
        repeat constructor; discriminate. }
    split_and!; [|reflexivity|reflexivity|exact Hlit|left; split; reflexivity].
    destruct Hs as [[-> _]|[-> _]]; reflexivity. }
  assert (move_text "2,9" 2 9) as Hmove.
  { exists ""%string, "2"%string, "9"%string, ""%string.
    split_and!; [reflexivity..| |]; apply Hnum; tauto. }
  split; [exact Hmove|].
  destruct (move_page_input_validation st_three three_pages "2,9" FaultSave
              eq_refl eq_refl ltac:(discriminate)) as (_ & H & _).
  apply (H 2 9 Hmove). simpl. lia.
Defined.

Lemma closed_session_is_inert_witness :
  healthy st_moved
  ∧ ∃ st', close_pdf st_moved = Returned Silent st'
           ∧ current_pdf st' = None
           ∧ undo_page st' NoFault = Returned Silent st'.
Proof.
  assert (healthy st_moved) as Hh.
  { right. exists two_pages. split_and!; [reflexivity..|discriminate]. }
  split; [exact Hh|].
  destruct (closed_session_is_inert st_moved Hh)
    as (st' & H1 & H2 & _ & _ & _ & H3 & _).
  exists st'. split_and!; [exact H1|exact H2|exact (proj1 (H3 NoFault ""%string))].
Defined.
